(** * The IPython notebook server application (notebookapp.py)

    A shallow embedding of [IPython/frontend/html/notebook/notebookapp.py]:
    the command line handling and server start-up of [IPythonNotebookApp],
    the URL table of [NotebookWebApplication], and the routing and bridging
    layer that the application wires together. *)

From Stdlib Require Import ZArith Ascii String List Bool Lia.
From stdpp Require Import base option list strings gmap pretty.

Local Open Scope string_scope.
Local Open Scope Z_scope.
Local Open Scope list_scope.

(** ** Python string and list primitives used by the module *)

Module Py.

(** Truth value of a string: only the empty string is false. *)
Definition truthy (s : string) : bool :=
  match s with
  | EmptyString => false
  | String _ _ => true
  end.

(** [s.startswith(c)] for a one-character prefix. *)
Definition startswith (c : ascii) (s : string) : bool :=
  match s with
  | EmptyString => false
  | String c' _ => Ascii.eqb c' c
  end.

(** [s.lstrip(c)]: drop every leading occurrence of [c]. *)
Fixpoint lstrip (c : ascii) (s : string) : string :=
  match s with
  | EmptyString => EmptyString
  | String c' t => if Ascii.eqb c' c then lstrip c t else s
  end.

(** [x in l] on a list of strings. *)
Definition contains (l : list string) (x : string) : bool :=
  existsb (String.eqb x) l.

(** [l.remove(x)]: drops the first occurrence; raises [ValueError]
    (here [None]) when there is none. *)
Fixpoint remove (x : string) (l : list string) : option (list string) :=
  match l with
  | [] => None
  | y :: t => if String.eqb y x then Some t else cons y <$> remove x t
  end.

End Py.

(** ** Module globals *)

Definition LOCALHOST : string := "127.0.0.1".

(** The flags that are specific to the frontend ([notebook_flags = []]). *)
Definition notebook_flags : list string := [].

(** ** Regular expressions

    The URL patterns are Python regular expressions.  [regex] is the
    abstract syntax of the part of the language they use, [re_compile]
    reads a pattern, and [run] is the backtracking matcher: it returns, in
    the order Python tries them, what is left of the subject after each way
    of matching a prefix of it. *)

Inductive regex :=
| Str (s : string)                  (* literal text *)
| Word                              (* \w *)
| Cat (r1 r2 : regex)
| Alt (r1 r2 : regex)               (* r1|r2 *)
| Plus (r : regex)                  (* r+ *)
| Star (r : regex)                  (* r* *)
| Dot                               (* . *)
| Group (name : option string) (r : regex)   (* (?P<name>r) and (r) *)
| Eol.                              (* $ *)

Definition LF : ascii := ascii_of_nat 10.

(** [\w] on byte strings without the LOCALE or UNICODE flag:
    [[a-zA-Z0-9_]]. *)
Definition is_word (c : ascii) : bool :=
  let n := nat_of_ascii c in
  ((48 <=? n) && (n <=? 57) || (65 <=? n) && (n <=? 90)
   || (97 <=? n) && (n <=? 122) || (n =? 95))%nat.

(** [$] without MULTILINE: the end of the subject, or just before a line
    feed that ends the subject. *)
Definition at_end (s : list ascii) : bool :=
  match s with
  | [] => true
  | [c] => Ascii.eqb c LF
  | _ => false
  end.

Fixpoint strip_prefix (p s : list ascii) : option (list ascii) :=
  match p with
  | [] => Some s
  | c :: p' =>
      match s with
      | [] => None
      | c' :: s' => if Ascii.eqb c c' then strip_prefix p' s' else None
      end
  end.

(** One or more repetitions, longest first.  A repetition that consumed
    nothing is not repeated again, and [fuel] bounds the repetitions. *)
Fixpoint plus_iter (step : list ascii -> list (list ascii)) (fuel : nat)
    (s : list ascii) : list (list ascii) :=
  match fuel with
  | O => []
  | S fuel' =>
      flat_map
        (fun t =>
           ((if (length t <? length s)%nat then plus_iter step fuel' t else [])
            ++ [t])%list)
        (step s)
  end.

Fixpoint run (r : regex) (s : list ascii) : list (list ascii) :=
  match r with
  | Str p =>
      match strip_prefix (list_ascii_of_string p) s with
      | Some t => [t]
      | None => []
      end
  | Word =>
      match s with
      | c :: t => if is_word c then [t] else []
      | [] => []
      end
  | Cat r1 r2 => flat_map (run r2) (run r1 s)
  | Alt r1 r2 => (run r1 s ++ run r2 s)%list
  | Plus r1 => plus_iter (run r1) (S (length s)) s
  | Star r1 => (plus_iter (run r1) (S (length s)) s ++ [s])%list
  | Dot =>
      match s with
      | c :: t => if Ascii.eqb c LF then [] else [t]
      | [] => []
      end
  | Group _ r1 => run r1 s
  | Eol => if at_end s then [s] else []
  end.

(** [regex.match(subject)] as a truth value: is there a match at the start
    of the subject? *)
Definition re_match (r : regex) (subject : list ascii) : bool :=
  match run r subject with
  | [] => false
  | _ :: _ => true
  end.

(** The whole subject matches. *)
Definition re_fullmatch (r : regex) (subject : list ascii) : bool :=
  existsb (fun t => match t with [] => true | _ => false end) (run r subject).

(** Concatenation that keeps literal text together. *)
Definition cat (r1 r2 : regex) : regex :=
  match r1, r2 with
  | _, Str EmptyString => r1
  | Str a, Str b => Str (a +:+ b)
  | Str a, Cat (Str b) r => Cat (Str (a +:+ b)) r
  | _, _ => Cat r1 r2
  end.

(** The name of a group, up to its closing [>]. *)
Fixpoint parse_name (s : list ascii) : option (string * list ascii) :=
  match s with
  | [] => None
  | c :: t =>
      if Ascii.eqb c ">" then Some (EmptyString, t)
      else '(n, rest) ← parse_name t; Some (String c n, rest)
  end.

(** ASCII letters and digits. *)
Definition is_alnum (c : ascii) : bool :=
  is_word c && negb (Ascii.eqb c "_").

(** Recursive descent over
    [alt ::= seq ('|' alt)?], [seq ::= (atom ('+' | '*')?)*],
    [atom ::= '(?P<' name '>' alt ')' | '(' alt ')' | '\w' | '\' punct
            | '$' | '.' | character].
    Anything else of the regular expression language is refused. *)
Fixpoint parse_alt (fuel : nat) (s : list ascii) : option (regex * list ascii) :=
  match fuel with
  | O => None
  | S fuel' =>
      let close (name : option string) (t : list ascii) :=
        '(r, t2) ← parse_alt fuel' t;
        match t2 with
        | ")"%char :: t3 => Some (Group name r, t3)
        | _ => None
        end in
      let parse_atom (s : list ascii) : option (regex * list ascii) :=
        match s with
        | "("%char :: "?"%char :: "P"%char :: "<"%char :: t =>
            '(n, t1) ← parse_name t; close (Some n) t1
        | "("%char :: "?"%char :: _ => None
        | "("%char :: t => close None t
        | "\"%char :: "w"%char :: t => Some (Word, t)
        | "\"%char :: c :: t =>
            if is_alnum c then None else Some (Str (String c EmptyString), t)
        | "$"%char :: t => Some (Eol, t)
        | "."%char :: t => Some (Dot, t)
        | c :: t =>
            if existsb (Ascii.eqb c)
                 (list_ascii_of_string "\()[]{}*+?^|") then None
            else Some (Str (String c EmptyString), t)
        | [] => None
        end in
      let parse_seq :=
        fix parse_seq (n : nat) (s : list ascii) : option (regex * list ascii) :=
          match n with
          | O => None
          | S n' =>
              match s with
              | [] | ")"%char :: _ | "|"%char :: _ => Some (Str EmptyString, s)
              | _ =>
                  '(a, t) ← parse_atom s;
                  let '(a, t) :=
                    match t with
                    | "+"%char :: t' => (Plus a, t')
                    | "*"%char :: t' => (Star a, t')
                    | _ => (a, t)
                    end in
                  '(r, t') ← parse_seq n' t;
                  Some (cat a r, t')
              end
          end in
      '(r1, t) ← parse_seq fuel' s;
      match t with
      | "|"%char :: t' => '(r2, t'') ← parse_alt fuel' t'; Some (Alt r1 r2, t'')
      | _ => Some (r1, t)
      end
  end.

(** [re.compile(pattern)]; [None] is [re.error] (or a construct outside
    the fragment above). *)
Definition re_compile (pattern : string) : option regex :=
  let s := list_ascii_of_string pattern in
  match parse_alt (S (S (length s))) s with
  | Some (r, []) => Some r
  | _ => None
  end.

(** [fmt % args] for a format whose only directives are [%s]. *)
Fixpoint format (fmt : string) (args : list string) : string :=
  match fmt with
  | EmptyString => EmptyString
  | String "%" (String "s" rest) =>
      match args with
      | a :: args' => a +:+ format rest args'
      | [] => String "%" (String "s" (format rest []))
      end
  | String c rest => String c (format rest args)
  end.

(** [s.endswith(c)]. *)
Fixpoint endswith (c : ascii) (s : string) : bool :=
  match s with
  | EmptyString => false
  | String c' EmptyString => Ascii.eqb c' c
  | String _ rest => endswith c rest
  end.

(** [re.escape(s)]: a backslash before every character that is not an
    ASCII letter or digit. *)
Fixpoint re_escape (s : string) : string :=
  match s with
  | EmptyString => EmptyString
  | String c rest =>
      if is_alnum c then String c (re_escape rest)
      else String "\" (String c (re_escape rest))
  end.

(** ** The web application

    [NotebookWebApplication] is a [tornado.web.Application].  What the
    framework does with the URL table is written out here as the framework
    does it: [Application.__init__] turns each [(pattern, handler, kwargs)]
    tuple into a [URLSpec], which appends [$] to a pattern that does not end
    with one and compiles it; [Application.__call__] hands the request to
    the first [URLSpec] whose [regex.match(request.path)] succeeds, with the
    [kwargs] of the tuple. *)

Definition _kernel_id_regex : string := "(?P<kernel_id>\w+-\w+-\w+-\w+-\w+)".
Definition _kernel_action_regex : string := "(?P<action>restart|interrupt)".
Definition _notebook_id_regex : string := "(?P<notebook_id>\w+-\w+-\w+-\w+-\w+)".

Inductive handler_class :=
| NBBrowserHandler | NewHandler | NamedNotebookHandler
| MainKernelHandler | KernelHandler | KernelActionHandler | ZMQStreamHandler
| NotebookRootHandler | NotebookHandler | RSTHandler
| StaticFileHandler.   (* the framework's own, for [static_path] *)

(** [tornado.web.URLSpec]: the pattern is anchored with [$] unless it ends
    with one already, and compiled. *)
Record URLSpec := {
  spec_regex : regex;
  handler_class_of : handler_class;
  kwargs : gmap string string
}.

Definition make_URLSpec (pattern : string) (h : handler_class)
    (kw : gmap string string) : option URLSpec :=
  let pattern := if endswith "$" pattern then pattern else pattern +:+ "$" in
  r ← re_compile pattern;
  Some {| spec_regex := r; handler_class_of := h; kwargs := kw |}.

(** [Application.add_handlers]. *)
Fixpoint add_handlers
    (handlers : list (string * handler_class * gmap string string))
    : option (list URLSpec) :=
  match handlers with
  | [] => Some []
  | (pattern, h, kw) :: rest =>
      spec ← make_URLSpec pattern h kw;
      specs ← add_handlers rest;
      Some (spec :: specs)
  end.

(** [tornado.web.Application.__init__(handlers, **settings)]: with a
    [static_path] setting the framework puts its static file routes in
    front of the application's. *)
Definition Application
    (handlers : list (string * handler_class * gmap string string))
    (settings : gmap string string) : option (list URLSpec) :=
  let handlers :=
    match settings !! "static_path" with
    | Some path =>
        if Py.truthy path then
          let static_url_prefix := default "/static/" (settings !! "static_url_prefix") in
          let kw : gmap string string := {[ "path" := path ]} in
          [ (re_escape static_url_prefix +:+ "(.*)", StaticFileHandler, kw);
            ("/(favicon\.ico)", StaticFileHandler, kw);
            ("/(robots\.txt)", StaticFileHandler, kw) ] ++ handlers
        else handlers
    | None => handlers
    end in
  add_handlers handlers.

(** [Application.__call__]: the first route whose pattern matches the
    request path handles the request; [None] is the 404 answer. *)
Fixpoint dispatch (specs : list URLSpec) (path : list ascii)
    : option (handler_class * gmap string string) :=
  match specs with
  | [] => None
  | spec :: rest =>
      if re_match (spec_regex spec) path
      then Some (handler_class_of spec, kwargs spec)
      else dispatch rest path
  end.

(** [os.path.join(a, b)] for a relative [b]. *)
Definition os_path_join (a b : string) : string :=
  if Py.truthy a && negb (endswith "/" a) then a +:+ "/" +:+ b else a +:+ b.

(** The URL table of [NotebookWebApplication.__init__]. *)
Definition handlers : list (string * handler_class * gmap string string) :=
  [ ("/", NBBrowserHandler, ∅);
    ("/new", NewHandler, ∅);
    (format "/%s" [_notebook_id_regex], NamedNotebookHandler, ∅);
    ("/kernels", MainKernelHandler, ∅);
    (format "/kernels/%s" [_kernel_id_regex], KernelHandler, ∅);
    (format "/kernels/%s/%s" [_kernel_id_regex; _kernel_action_regex],
       KernelActionHandler, ∅);
    (format "/kernels/%s/iopub" [_kernel_id_regex], ZMQStreamHandler,
       {[ "stream_name" := "iopub" ]});
    (format "/kernels/%s/shell" [_kernel_id_regex], ZMQStreamHandler,
       {[ "stream_name" := "shell" ]});
    ("/notebooks", NotebookRootHandler, ∅);
    (format "/notebooks/%s" [_notebook_id_regex], NotebookHandler, ∅);
    ("/rstservice/render", RSTHandler, ∅) ].

(** [NotebookWebApplication.__init__]; [dirname] is
    [os.path.dirname(__file__)]. *)
Definition NotebookWebApplication (dirname : string) : option (list URLSpec) :=
  let settings : gmap string string :=
    <[ "template_path" := os_path_join dirname "templates" ]>
      {[ "static_path" := os_path_join dirname "static" ]} in
  Application handlers settings.

(** The routes of the kernel family: the URL table entries whose pattern
    starts with [/kernels]. *)
Definition kernel_handlers : list (string * handler_class * gmap string string) :=
  filter (fun h => String.prefix "/kernels" h.1.1 = true) handlers.

(** A request path given as a string. *)
Definition path_of (s : string) : list ascii := list_ascii_of_string s.

(** A standard UUID string: 8-4-4-4-12 hexadecimal digits.  The code never
    tests this; it is what "UUID-shaped" is compared with. *)
Definition is_hex (c : ascii) : bool :=
  let n := nat_of_ascii c in
  ((48 <=? n) && (n <=? 57) || (65 <=? n) && (n <=? 70)
   || (97 <=? n) && (n <=? 102))%nat.

Fixpoint take_hex (n : nat) (s : list ascii) : option (list ascii) :=
  match n with
  | O => Some s
  | S n' =>
      match s with
      | c :: t => if is_hex c then take_hex n' t else None
      | [] => None
      end
  end.

Definition take_hyphen (s : list ascii) : option (list ascii) :=
  match s with
  | c :: t => if Ascii.eqb c "-" then Some t else None
  | [] => None
  end.

(** Groups of hexadecimal digits of the given sizes, separated by
    hyphens. *)
Fixpoint hex_groups (sizes : list nat) (s : list ascii) : option (list ascii) :=
  match sizes with
  | [] => Some s
  | [n] => take_hex n s
  | n :: rest => t ← take_hex n s; t' ← take_hyphen t; hex_groups rest t'
  end.

Definition is_uuid (s : list ascii) : bool :=
  match hex_groups [8; 4; 4; 4; 12]%nat s with
  | Some [] => true
  | _ => false
  end.

(** A subject matches a pattern as a whole. *)
Definition matches_pattern (pattern : string) (s : list ascii) : bool :=
  match re_compile pattern with
  | Some r => re_fullmatch r s
  | None => false
  end.

(** What the two identifier patterns compile to, less the group around
    it: five [\w+] separated by hyphens. *)
Definition id_pattern : regex :=
  Cat (Plus Word) (Cat (Str "-") (Cat (Plus Word) (Cat (Str "-")
    (Cat (Plus Word) (Cat (Str "-") (Cat (Plus Word) (Cat (Str "-")
      (Plus Word)))))))).

(** A non-empty run of word characters. *)
Definition word_run (w : list ascii) : Prop :=
  w <> [] /\ Forall (fun c => is_word c = true) w.

(** Five runs of word characters separated by single hyphens. *)
Definition five_words (W : list ascii) : Prop :=
  exists w1 w2 w3 w4 w5,
    word_run w1 /\ word_run w2 /\ word_run w3 /\ word_run w4 /\ word_run w5
    /\ W = w1 ++ "-"%char :: w2 ++ "-"%char :: w3 ++ "-"%char :: w4
             ++ "-"%char :: w5.

(** The shapes the URL patterns compile to: a literal path, and a literal
    prefix followed by an identifier group and a tail. *)
Definition plain_route (text : string) : regex := Cat (Str text) Eol.

Definition id_route (prefix group : string) (tail : regex) : regex :=
  Cat (Str prefix) (Cat (Group (Some group) id_pattern) tail).

Definition action_tail : regex :=
  Cat (Str "/")
    (Cat (Group (Some "action") (Alt (Str "restart") (Str "interrupt"))) Eol).

(** The routes of the application as [Application] compiles them. *)
Definition compiled_routes (static_kw : gmap string string) : list URLSpec :=
  [ Build_URLSpec (Cat (Str "/static/") (Cat (Group None (Star Dot)) Eol))
      StaticFileHandler static_kw;
    Build_URLSpec (Cat (Str "/") (Cat (Group None (Str "favicon.ico")) Eol))
      StaticFileHandler static_kw;
    Build_URLSpec (Cat (Str "/") (Cat (Group None (Str "robots.txt")) Eol))
      StaticFileHandler static_kw;
    Build_URLSpec (plain_route "/") NBBrowserHandler ∅;
    Build_URLSpec (plain_route "/new") NewHandler ∅;
    Build_URLSpec (id_route "/" "notebook_id" Eol) NamedNotebookHandler ∅;
    Build_URLSpec (plain_route "/kernels") MainKernelHandler ∅;
    Build_URLSpec (id_route "/kernels/" "kernel_id" Eol) KernelHandler ∅;
    Build_URLSpec (id_route "/kernels/" "kernel_id" action_tail)
      KernelActionHandler ∅;
    Build_URLSpec (id_route "/kernels/" "kernel_id" (plain_route "/iopub"))
      ZMQStreamHandler {[ "stream_name" := "iopub" ]};
    Build_URLSpec (id_route "/kernels/" "kernel_id" (plain_route "/shell"))
      ZMQStreamHandler {[ "stream_name" := "shell" ]};
    Build_URLSpec (plain_route "/notebooks") NotebookRootHandler ∅;
    Build_URLSpec (id_route "/notebooks/" "notebook_id" Eol) NotebookHandler ∅;
    Build_URLSpec (plain_route "/rstservice/render") RSTHandler ∅ ].

(** A concrete installation directory and kernel identifier, for the
    worked requests below. *)
Definition demo_dirname : string := "/usr/lib/python2.7/IPython/frontend/html/notebook".
Definition demo_uuid : list ascii :=
  path_of "123e4567-e89b-12d3-a456-426614174000".

(** ** The application object *)

Inductive log_level := INFO | CRITICAL.

Record HTTPServer := {
  request_callback : list URLSpec;   (* the web application served *)
  ssl_options : option (gmap string string);
  listening : option (Z * string)    (* [listen(port, address)] *)
}.

(** Of the [RoutingKernelManager] only what [init_configurables] hands to
    it is kept: the arguments for the kernels it starts. *)
Record RoutingKernelManager := {
  rkm_kernel_argv : list string
}.

Record IPythonNotebookApp := {
  ip : string;
  port : Z;
  certfile : string;
  keyfile : string;
  kernel_argv : list string;
  log : list (log_level * string);
  routing_kernel_manager : option RoutingKernelManager;
  web_app : option (list URLSpec);
  http_server : option HTTPServer
}.

(** Class attribute [name]. *)
Definition name : string := "ipython-notebook".

Definition with_ip (v : string) (a : IPythonNotebookApp) :=
  {| ip := v; port := port a; certfile := certfile a; keyfile := keyfile a;
     kernel_argv := kernel_argv a; log := log a;
     routing_kernel_manager := routing_kernel_manager a;
     web_app := web_app a; http_server := http_server a |}.
Definition with_port (v : Z) (a : IPythonNotebookApp) :=
  {| ip := ip a; port := v; certfile := certfile a; keyfile := keyfile a;
     kernel_argv := kernel_argv a; log := log a;
     routing_kernel_manager := routing_kernel_manager a;
     web_app := web_app a; http_server := http_server a |}.
Definition with_certfile (v : string) (a : IPythonNotebookApp) :=
  {| ip := ip a; port := port a; certfile := v; keyfile := keyfile a;
     kernel_argv := kernel_argv a; log := log a;
     routing_kernel_manager := routing_kernel_manager a;
     web_app := web_app a; http_server := http_server a |}.
Definition with_keyfile (v : string) (a : IPythonNotebookApp) :=
  {| ip := ip a; port := port a; certfile := certfile a; keyfile := v;
     kernel_argv := kernel_argv a; log := log a;
     routing_kernel_manager := routing_kernel_manager a;
     web_app := web_app a; http_server := http_server a |}.
Definition with_kernel_argv (v : list string) (a : IPythonNotebookApp) :=
  {| ip := ip a; port := port a; certfile := certfile a;
     keyfile := keyfile a; kernel_argv := v; log := log a;
     routing_kernel_manager := routing_kernel_manager a;
     web_app := web_app a; http_server := http_server a |}.
Definition with_routing_kernel_manager (v : RoutingKernelManager)
    (a : IPythonNotebookApp) :=
  {| ip := ip a; port := port a; certfile := certfile a;
     keyfile := keyfile a; kernel_argv := kernel_argv a; log := log a;
     routing_kernel_manager := Some v; web_app := web_app a;
     http_server := http_server a |}.
Definition with_web_app (v : list URLSpec) (a : IPythonNotebookApp) :=
  {| ip := ip a; port := port a; certfile := certfile a;
     keyfile := keyfile a; kernel_argv := kernel_argv a; log := log a;
     routing_kernel_manager := routing_kernel_manager a; web_app := Some v;
     http_server := http_server a |}.
Definition with_http_server (v : HTTPServer) (a : IPythonNotebookApp) :=
  {| ip := ip a; port := port a; certfile := certfile a;
     keyfile := keyfile a; kernel_argv := kernel_argv a; log := log a;
     routing_kernel_manager := routing_kernel_manager a;
     web_app := web_app a; http_server := Some v |}.

(** [self.log.critical(msg)] and [self.log.info(msg)]: the record is
    appended to what the host has been told so far.  ([CRITICAL] is the
    highest level [log_level] can be set to, so a critical record is never
    filtered out.) *)
Definition log_emit (lvl : log_level) (msg : string) (a : IPythonNotebookApp) :=
  {| ip := ip a; port := port a; certfile := certfile a;
     keyfile := keyfile a; kernel_argv := kernel_argv a;
     log := log a ++ [(lvl, msg)];
     routing_kernel_manager := routing_kernel_manager a;
     web_app := web_app a; http_server := http_server a |}.

(** A freshly constructed application: every trait at its declared default
    ([ip = LOCALHOST], [port = 8888], [certfile = keyfile = u'']). *)
Definition new_app : IPythonNotebookApp :=
  {| ip := LOCALHOST; port := 8888; certfile := ""; keyfile := "";
     kernel_argv := []; log := []; routing_kernel_manager := None;
     web_app := None; http_server := None |}.

(** ** Trait assignment

    Assigning a trait stores the value and, when the value changed, calls
    the change handler [_<name>_changed(name, old, new)] if the class has
    one.  Only [ip] has a handler; it assigns [ip] again, so assignment and
    handler are mutually recursive.  [fuel] bounds the depth of that
    recursion, [None] is a [RuntimeError] for exceeding it. *)

Definition _ip_changed
    (setattr_ip : string -> IPythonNotebookApp -> option IPythonNotebookApp)
    (self : IPythonNotebookApp) (name old new : string)
    : option IPythonNotebookApp :=
  if String.eqb new "*" then setattr_ip "" self else Some self.

Fixpoint setattr_ip (fuel : nat) (value : string) (self : IPythonNotebookApp)
    : option IPythonNotebookApp :=
  match fuel with
  | O => None
  | S fuel' =>
      let old := ip self in
      if String.eqb old value then Some self
      else _ip_changed (setattr_ip fuel') (with_ip value self) "ip" old value
  end.

(** Python's default recursion limit. *)
Definition recursion_limit : nat := 1000.

(** One configured trait value, from the command line (through [aliases])
    or from a configuration file. *)
Inductive assignment :=
| Set_ip (v : string)
| Set_port (v : Z)
| Set_certfile (v : string)
| Set_keyfile (v : string).

Definition assign (x : assignment) (self : IPythonNotebookApp)
    : option IPythonNotebookApp :=
  match x with
  | Set_ip v => setattr_ip recursion_limit v self
  | Set_port v => Some (with_port v self)
  | Set_certfile v => Some (with_certfile v self)
  | Set_keyfile v => Some (with_keyfile v self)
  end.

(** [update_config]: the configured values are assigned one after the
    other. *)
Fixpoint update_config (cfg : list assignment) (self : IPythonNotebookApp)
    : option IPythonNotebookApp :=
  match cfg with
  | [] => Some self
  | x :: rest => self' ← assign x self; update_config rest self'
  end.

(** ** Command line and start-up *)

(** The argument appended for the kernels:
    ["--KernelApp.parent_appname='%s'" % self.name]. *)
Definition parent_appname_arg : string :=
  "--KernelApp.parent_appname='" +:+ name +:+ "'".

(** The scrubbing loop of [parse_command_line]: it walks the caller's
    [argv] and removes from the copy [kernel_argv] each argument that is a
    frontend flag. *)
Fixpoint scrub (flags : list string) (argv kernel_argv : list string)
    : option (list string) :=
  match argv with
  | [] => Some kernel_argv
  | a :: rest =>
      if Py.startswith "-" a && Py.contains flags (Py.lstrip "-" a)
      then kernel_argv' ← Py.remove a kernel_argv; scrub flags rest kernel_argv'
      else scrub flags rest kernel_argv
  end.

Definition insecure_warning : string :=
  "WARNING: the notebook server is listening on all IP addresses " +:+
  "but not using any encryption or authentication. This is highly " +:+
  "insecure and not recommended.".

Section Application.

(** [os.path.dirname(__file__)]. *)
Variable dirname : string.

(** [sys.argv[1:]]. *)
Variable sys_argv : list string.

(** What the base class makes of a command line: the trait values it
    configures, or [None] when it leaves the program (help, version, an
    argument it cannot parse). *)
Variable command_line_config : list string -> option (list assignment).

(** The trait values the base class's [initialize] configures after the
    command line has been parsed (profile and configuration files). *)
Variable profile_config : list assignment.

(** What the operating system makes of [http_server.listen(port, address)]:
    [false] when binding the socket raises (the port is taken or out of
    range, the address cannot be resolved or is not one of the host's). *)
Variable can_listen : Z -> string -> bool.

(** [IPythonNotebookApp.parse_command_line].  The second component is the
    caller's [argv] list object as the call leaves it. *)
Definition parse_command_line (self : IPythonNotebookApp)
    (argv : option (list string))
    : option (IPythonNotebookApp * option (list string)) :=
  (* super(IPythonNotebookApp, self).parse_command_line(argv) *)
  cfg ← command_line_config (default sys_argv argv);
  self ← update_config cfg self;
  let argv' := default sys_argv argv in
  let kargv := argv' in                                   (* list(argv) *)
  let kargv := (kargv ++ [parent_appname_arg])%list in
  kargv ← scrub notebook_flags argv' kargv;
  Some (with_kernel_argv kargv self, argv).

(** [IPythonNotebookApp.init_configurables]: the routing kernel manager is
    given the kernel arguments (the signal handler and the other two
    managers leave no trace here). *)
Definition init_configurables (self : IPythonNotebookApp)
    : IPythonNotebookApp :=
  with_routing_kernel_manager {| rkm_kernel_argv := kernel_argv self |} self.

(** The part of [initialize] from the SSL options on: the HTTP server is
    made for the web application [app], the warning is logged, and the
    server listens; [None] is the exception that [listen] raises when the
    socket cannot be bound. *)
Definition serve (app : list URLSpec) (self : IPythonNotebookApp)
    : option IPythonNotebookApp :=
  let ssl_options :=
    if Py.truthy (certfile self) then
      let d : gmap string string := {[ "certfile" := certfile self ]} in
      Some (if Py.truthy (keyfile self)
            then <[ "keyfile" := keyfile self ]> d else d)
    else None in
  let self :=
    if bool_decide (ssl_options = None) && negb (Py.truthy (ip self))
    then log_emit CRITICAL insecure_warning self else self in
  if can_listen (port self) (ip self) then
    Some (with_http_server
            {| request_callback := app; ssl_options := ssl_options;
               listening := Some (port self, ip self) |} self)
  else None.

(** [IPythonNotebookApp.initialize]. *)
Definition initialize (self : IPythonNotebookApp)
    (argv : option (list string)) : option IPythonNotebookApp :=
  (* super(IPythonNotebookApp, self).initialize(argv) *)
  '(self, _) ← parse_command_line self argv;
  self ← update_config profile_config self;
  let self := init_configurables self in
  app ← NotebookWebApplication dirname;
  let self := with_web_app app self in
  serve app self.

End Application.

(** A host on which every port and address can be bound, for the worked
    runs. *)
Definition demo_host : Z -> string -> bool := fun _ _ => true.

(** Whether an address is a loopback address: the module's [LOCALHOST],
    any other address of 127.0.0.0/8, the IPv6 loopback or the host name
    bound to them.  The code never computes this; it is the reading of
    "bound to loopback" that the start-up warning is compared with. *)
Definition is_loopback (addr : string) : bool :=
  String.eqb addr LOCALHOST || String.prefix "127." addr
  || String.eqb addr "::1" || String.eqb addr "localhost".

(** ** The routing table behind [RoutingKernelManager]

    [init_configurables] only constructs the [RoutingKernelManager]; its
    code ([kernelmanager.py]) is not part of this file.  The definitions of
    this module follow the specification's sections 4.1, 4.2 and 5. *)

Module RoutingTable.

(** Where a caller of [resolve] is. *)
Inductive pc :=
| Waiting                (* before the notebook's exclusive section *)
| Holding                (* inside it, before the lookup *)
| Launching              (* no entry found, before [KernelRegistry.start] *)
| Binding (k : nat)      (* kernel [k] started, entry not yet written *)
| Leaving (k : nat)      (* identity known, section not yet left *)
| Failing                (* the launch failed, section not yet left *)
| Returned (k : nat)     (* [resolve] returned [k] *)
| Raised.                (* [resolve] raised [LaunchError] *)

(** Modelled from the spec: the shared state of [RoutingTable] and
    [KernelRegistry] (sections 3, 4.1 and 5), which the module
    [kernelmanager.py] holds and which is missing here.  [routing] is the
    map of routing entries, [live] the registered kernel identities,
    [next_id] the supply of fresh identities, [starts] the kernels
    started so far with the notebook they were started for, [failures]
    the notebook of every launch that failed, [locks] the per-notebook
    exclusive sections with the caller inside, and [callers] the
    concurrent invocations of [resolve]. *)
Record state := {
  routing : gmap string nat;
  live : gset nat;
  next_id : nat;
  starts : list (string * nat);
  failures : list string;
  locks : gmap string nat;
  callers : list (string * pc)
}.

Definition set_caller (i : nat) (nb : string) (p : pc) (s : state) : state :=
  {| routing := routing s; live := live s; next_id := next_id s;
     starts := starts s; failures := failures s; locks := locks s;
     callers := <[ i := (nb, p) ]> (callers s) |}.

Definition set_locks (l : gmap string nat) (s : state) : state :=
  {| routing := routing s; live := live s; next_id := next_id s;
     starts := starts s; failures := failures s; locks := l;
     callers := callers s |}.

Definition set_routing (r : gmap string nat) (s : state) : state :=
  {| routing := r; live := live s; next_id := next_id s;
     starts := starts s; failures := failures s; locks := locks s;
     callers := callers s |}.

(** Modelled from the spec: [KernelRegistry.start] (section 4.1), missing
    from the sources: a launch that succeeds registers the process under a
    fresh identity; one that fails registers nothing. *)
Definition registry_start (nb : string) (s : state) : nat * state :=
  let k := next_id s in
  (k, {| routing := routing s; live := {[ k ]} ∪ live s; next_id := S k;
         starts := starts s ++ [(nb, k)];
         failures := failures s; locks := locks s;
         callers := callers s |}).

Definition registry_start_failed (nb : string) (s : state) : state :=
  {| routing := routing s; live := live s; next_id := next_id s;
     starts := starts s; failures := failures s ++ [nb];
     locks := locks s; callers := callers s |}.

(** Modelled from the spec: one atomic step of caller [i] inside
    [RoutingTable.resolve] (sections 4.2 and 5), missing from the sources:
    enter the notebook's exclusive section, return the current entry, or,
    if there is none, start a kernel and record the entry, then leave the
    section.  [launch_ok] says whether a launch attempted in this step
    succeeds.  [None]: the caller cannot move (the section is taken, or
    the call is over). *)
Definition step (i : nat) (launch_ok : bool) (s : state) : option state :=
  '(nb, p) ← callers s !! i;
  match p with
  | Waiting =>
      match locks s !! nb with
      | Some _ => None
      | None => Some (set_caller i nb Holding (set_locks (<[ nb := i ]> (locks s)) s))
      end
  | Holding =>
      match routing s !! nb with
      | Some k => Some (set_caller i nb (Leaving k) s)
      | None => Some (set_caller i nb Launching s)
      end
  | Launching =>
      if launch_ok then
        let '(k, s') := registry_start nb s in
        Some (set_caller i nb (Binding k) s')
      else Some (set_caller i nb Failing (registry_start_failed nb s))
  | Binding k =>
      Some (set_caller i nb (Leaving k) (set_routing (<[ nb := k ]> (routing s)) s))
  | Leaving k =>
      Some (set_caller i nb (Returned k) (set_locks (delete nb (locks s)) s))
  | Failing =>
      Some (set_caller i nb Raised (set_locks (delete nb (locks s)) s))
  | Returned _ | Raised => None
  end.

(** An interleaving: which caller moves next, and whether a launch it
    attempts succeeds. *)
Fixpoint exec (schedule : list (nat * bool)) (s : state) : option state :=
  match schedule with
  | [] => Some s
  | (i, ok) :: rest => s' ← step i ok s; exec rest s'
  end.

(** The subsystem before any request, with one pending [resolve] call per
    element of [nbs]. *)
Definition init (nbs : list string) : state :=
  {| routing := ∅; live := ∅; next_id := 0; starts := [];
     failures := []; locks := ∅;
     callers := (fun nb => (nb, Waiting)) <$> nbs |}.

Definition finished (p : pc) : bool :=
  match p with
  | Returned _ | Raised => true
  | _ => false
  end.

Definition all_finished (s : state) : bool :=
  forallb (fun c => finished c.2) (callers s).

(** The kernels started for a notebook. *)
Definition starts_for (nb : string) (s : state) : list nat :=
  snd <$> List.filter (fun e => String.eqb e.1 nb) (starts s).

(** The launches for a notebook that failed. *)
Definition failures_for (nb : string) (s : state) : list string :=
  List.filter (String.eqb nb) (failures s).

(** The invocations of [KernelRegistry.start] for a notebook: those that
    registered a kernel and those that failed. *)
Definition start_invocations (nb : string) (s : state) : nat :=
  (length (starts_for nb s) + length (failures_for nb s))%nat.

(** The steps a caller has left at most. *)
Definition remaining (p : pc) : nat :=
  match p with
  | Waiting => 5
  | Holding => 4
  | Launching => 3
  | Binding _ => 2
  | Leaving _ => 1
  | Failing => 1
  | Returned _ | Raised => 0
  end.

Definition budget (s : state) : nat :=
  sum_list_with (fun c => remaining c.2) (callers s).

(** Inside the notebook's exclusive section. *)
Definition critical (p : pc) : bool :=
  match p with
  | Holding | Launching | Binding _ | Leaving _ | Failing => true
  | Waiting | Returned _ | Raised => false
  end.

(** What every interleaving of [resolve] calls on notebooks [nbs]
    preserves. *)
Record inv (nbs : list string) (s : state) : Prop := {
  inv_callers : (callers s).*1 = nbs;
  inv_owner : forall i nb p,
    callers s !! i = Some (nb, p) -> critical p = true ->
    locks s !! nb = Some i;
  inv_lock : forall nb i,
    locks s !! nb = Some i ->
    exists p, callers s !! i = Some (nb, p) /\ critical p = true;
  inv_unknown : forall i nb p,
    callers s !! i = Some (nb, p) ->
    p = Launching \/ (exists k, p = Binding k) ->
    routing s !! nb = None;
  inv_known : forall i nb p k,
    callers s !! i = Some (nb, p) -> p = Leaving k \/ p = Returned k ->
    routing s !! nb = Some k;
  inv_routed : forall nb k,
    routing s !! nb = Some k -> starts_for nb s = [k];
  inv_binding : forall i nb k,
    callers s !! i = Some (nb, Binding k) -> starts_for nb s = [k];
  inv_unrouted : forall nb,
    routing s !! nb = None ->
    starts_for nb s = [] \/ exists i k, callers s !! i = Some (nb, Binding k);
  inv_failed : forall i nb p,
    callers s !! i = Some (nb, p) -> p = Failing \/ p = Raised ->
    nb ∈ failures s;
  inv_live : live s = list_to_set (starts s).*2
}.

(** Two concurrent calls for notebook [nbA] and one for [nbB], and an
    interleaving of them in which every launch succeeds. *)
Definition demo_calls : list string := ["nbA"; "nbA"; "nbB"].

Definition demo_schedule : list (nat * bool) :=
  (fun i => (i, true)) <$>
    [0; 2; 0; 2; 0; 0; 2; 0; 1; 2; 1; 2; 1]%nat.

(** Two concurrent calls for [nbA]: the first enters the section and its
    launch fails; the second then finds no entry and starts a kernel. *)
Definition failing_schedule : list (nat * bool) :=
  [(0, true); (0, true); (0, false); (0, true);
   (1, true); (1, true); (1, true); (1, true); (1, true)]%nat.

End RoutingTable.

(** ** Kernels and the bridges bound to them

    The routes to [KernelActionHandler] and [ZMQStreamHandler] are all this
    file has of the lifecycle actions and of the stream bridges; the
    handlers and managers themselves ([handlers.py], [kernelmanager.py])
    are not part of it.  The definitions of this module follow the
    specification's sections 3, 4, 5 and 7: a kernel is stopped at once,
    and the bridges attached to it learn of it later, each from its own
    staleness notification. *)

Module Bridges.

Inductive Channel := Control | Broadcast.

Inductive bridge_state := Attaching | Active | Detached | Stale | Errored.

(** Modelled from the spec: a Bridge (section 3), a live binding of a
    client connection to a kernel identity and a channel, with its place
    in the state machine of section 4.3. *)
Record bridge := {
  connection : nat;
  kernel : nat;
  channel : Channel;
  bstate : bridge_state
}.

(** Modelled from the spec: the state that [KernelRegistry],
    [RoutingTable] and the bridges share (sections 3 and 5): the live kernel
    identities, the supply of fresh ones, the routing entries, the bridges
    created so far, and the staleness notifications that have been sent
    and not yet observed (sections 5 and 7), each for the bridge at an
    index of [bridges]. *)
Record state := {
  live : gset nat;
  next_id : nat;
  routing : gmap string nat;
  bridges : list bridge;
  pending : list nat
}.

Definition init : state :=
  {| live := ∅; next_id := 0; routing := ∅; bridges := []; pending := [] |}.

(** Every state but [Attaching] and [Active] is terminal. *)
Definition terminal (b : bridge) : bool :=
  match bstate b with
  | Attaching | Active => false
  | Detached | Stale | Errored => true
  end.

Definition with_bstate (st : bridge_state) (b : bridge) : bridge :=
  {| connection := connection b; kernel := kernel b; channel := channel b;
     bstate := st |}.

(** Modelled from the spec: the observers of a kernel identity (sections
    4.3 and 9): the bridges bound to [k] that are not in a terminal state,
    by their index, counted from [n]. *)
Fixpoint observers_from (n k : nat) (bs : list bridge) : list nat :=
  match bs with
  | [] => []
  | b :: bs' =>
      (if Nat.eqb (kernel b) k && negb (terminal b) then [n] else [])
      ++ observers_from (S n) k bs'
  end.

Definition observers (k : nat) (bs : list bridge) : list nat :=
  observers_from 0 k bs.

(** Modelled from the spec: [KernelRegistry.start] (section 4.1): a fresh
    identity is registered. *)
Definition start (s : state) : nat * state :=
  let k := next_id s in
  (k, {| live := {[ k ]} ∪ live s; next_id := S k; routing := routing s;
         bridges := bridges s; pending := pending s |}).

(** Modelled from the spec: [KernelRegistry.stop] (section 4.1) with the
    staleness event of sections 5 and 7: the identity is removed, and a
    staleness notification is sent to each bridge attached to it, which
    the bridge observes later; stopping an identity that is not live
    changes nothing. *)
Definition stop (k : nat) (s : state) : state :=
  if bool_decide (k ∈ live s) then
    {| live := live s ∖ {[ k ]}; next_id := next_id s; routing := routing s;
       bridges := bridges s;
       pending := pending s ++ observers k (bridges s) |}
  else s.

Definition set_routing (r : gmap string nat) (s : state) : state :=
  {| live := live s; next_id := next_id s; routing := r;
     bridges := bridges s; pending := pending s |}.

(** The routing entries without those for kernel [k]. *)
Definition unroute (k : nat) (r : gmap string nat) : gmap string nat :=
  filter (fun e => e.2 <> k) r.

(** What a client or the action layer can ask for, what a kernel can do
    on its own, and what a bridge gets to see. *)
Inductive event :=
| Start                                   (* createStandaloneKernel *)
| Resolve (nb : string)                   (* resolveNotebookKernel *)
| Attach (conn k : nat) (ch : Channel)    (* openChannelStream *)
| ClientClose (b : nat)                   (* the client of bridge [b] closes *)
| ProtocolError (b : nat)                 (* malformed traffic on bridge [b] *)
| Interrupt (k : nat)
| Shutdown (k : nat)                      (* deleteKernel *)
| Restart (k : nat)                       (* restart of a kernel identity *)
| Rebind (nb : string)                    (* restart through the notebook *)
| Release (nb : string)                   (* closeNotebookSession *)
| KernelExit (k : nat)                    (* the process dies unexpectedly *)
| Notify (b : nat).                       (* bridge [b] observes the staleness
                                             notification sent to it *)

(** One bridge leaves [Active] for the terminal state [st]; a bridge that
    is not active, or that does not exist, is left alone. *)
Definition finish (i : nat) (st : bridge_state) (s : state) : state :=
  match bridges s !! i with
  | Some b =>
      match bstate b with
      | Active =>
          {| live := live s; next_id := next_id s; routing := routing s;
             bridges := <[ i := with_bstate st b ]> (bridges s);
             pending := pending s |}
      | _ => s
      end
  | None => s
  end.

(** Modelled from the spec: staleness (section 4.3): the bridge at index
    [i] observes the notification that its kernel identity is invalid and,
    if it is still active, becomes [Stale]; a notification that was not
    sent is not observed. *)
Definition observe (i : nat) (s : state) : state :=
  if bool_decide (i ∈ pending s) then
    let s' := finish i Stale s in
    {| live := live s'; next_id := next_id s'; routing := routing s';
       bridges := bridges s';
       pending := filter (fun j => j <> i) (pending s) |}
  else s.

(** Modelled from the spec: the operations of sections 4.1 to 4.5 as one
    transition function.  An operation that the specification makes fail
    ([UnknownKernel], [UnknownNotebook]) leaves the state as it is. *)
Definition step (e : event) (s : state) : state :=
  match e with
  | Start => (start s).2
  | Resolve nb =>
      match routing s !! nb with
      | Some _ => s
      | None => let '(k, s') := start s in
                set_routing (<[ nb := k ]> (routing s')) s'
      end
  | Attach conn k ch =>
      if bool_decide (k ∈ live s) then
        let b := {| connection := conn; kernel := k; channel := ch;
                    bstate := Attaching |} in
        {| live := live s; next_id := next_id s; routing := routing s;
           bridges := bridges s ++ [with_bstate Active b];
           pending := pending s |}
      else s
  | ClientClose i => finish i Detached s
  | ProtocolError i => finish i Errored s
  | Interrupt k => s
  | Shutdown k =>
      let s' := stop k s in set_routing (unroute k (routing s')) s'
  | Restart k =>
      if bool_decide (k ∈ live s) then
        let s1 := stop k s in
        let '(k', s2) := start s1 in
        set_routing ((fun old => if Nat.eqb old k then k' else old) <$> routing s2) s2
      else s
  | Rebind nb =>
      let s1 := match routing s !! nb with
                | Some old => stop old s
                | None => s
                end in
      let '(k', s2) := start s1 in
      set_routing (<[ nb := k' ]> (routing s2)) s2
  | Release nb =>
      match routing s !! nb with
      | Some k => let s' := stop k s in set_routing (delete nb (routing s')) s'
      | None => s
      end
  | KernelExit k =>
      let s' := stop k s in set_routing (unroute k (routing s')) s'
  | Notify i => observe i s
  end.

Definition run (events : list event) (s : state) : state :=
  foldl (fun s e => step e s) s events.

(** Every notification that has been sent is observed. *)
Definition drain (s : state) : state :=
  run (Notify <$> pending s) s.


(** What holds of every reachable state. *)
Record inv (s : state) : Prop := {
  inv_fresh : forall k, k ∈ live s -> (k < next_id s)%nat;
  inv_bridges : forall i b, bridges s !! i = Some b ->
                (kernel b < next_id s)%nat;
  inv_active : forall i b, bridges s !! i = Some b -> terminal b = false ->
               bstate b = Active /\ (kernel b ∈ live s \/ i ∈ pending s);
  inv_pending : forall i, i ∈ pending s ->
                exists b, bridges s !! i = Some b /\ kernel b ∉ live s;
  inv_routing : forall nb k, routing s !! nb = Some k -> k ∈ live s;
  inv_inj : forall nb nb' k,
    routing s !! nb = Some k -> routing s !! nb' = Some k -> nb = nb'
}.

(** The scenario of section 8: a notebook is resolved, a broadcast bridge
    is opened on its kernel, and the kernel is restarted. *)
Definition scenario : list event :=
  [Resolve "nbA"; Attach 7 0 Broadcast; Restart 0].


End Bridges.

(** ** The rest of the module: aliases, [start], the entry point *)

(** [d.update(other)] for a dictionary literal [other]: its items are
    stored one after the other. *)
Definition dict_update (d : gmap string string)
    (other : list (string * string)) : gmap string string :=
  foldl (fun d kv => <[ kv.1 := kv.2 ]> d) d other.

(** The aliases the frontend adds to, or puts in place of, the kernel's. *)
Definition notebook_aliases : list (string * string) :=
  [ ("ip", "IPythonNotebookApp.ip");
    ("port", "IPythonNotebookApp.port");
    ("keyfile", "IPythonNotebookApp.keyfile");
    ("certfile", "IPythonNotebookApp.certfile");
    ("colors", "ZMQInteractiveShell.colors");
    ("notebook-dir", "NotebookManager.notebook_dir") ].

(** [aliases = dict(ipkernel_aliases); aliases.update({...})], for any
    aliases of the kernel application. *)
Definition aliases (ipkernel_aliases : gmap string string)
    : gmap string string :=
  dict_update ipkernel_aliases notebook_aliases.

(** Whether the scrubbing loop takes an argument for a frontend flag. *)
Definition is_frontend_flag (flags : list string) (a : string) : bool :=
  Py.startswith "-" a && Py.contains flags (Py.lstrip "-" a).

(** An argument of the [%] operator. *)
Inductive format_arg :=
| Arg_s (s : string)     (* for [%s] *)
| Arg_i (n : Z).         (* for [%i] *)

(** [fmt % args] for the directives [%s] and [%i]; a directive without an
    argument of its kind is left as it is. *)
Fixpoint format_args (fmt : string) (args : list format_arg) : string :=
  match fmt with
  | EmptyString => EmptyString
  | String "%" (String "s" rest) =>
      match args with
      | Arg_s a :: args' => a +:+ format_args rest args'
      | _ => String "%" (String "s" (format_args rest args))
      end
  | String "%" (String "i" rest) =>
      match args with
      | Arg_i n :: args' => pretty n +:+ format_args rest args'
      | _ => String "%" (String "i" (format_args rest args))
      end
  | String c rest => String c (format_args rest args)
  end.

(** [IPythonNotebookApp.start], up to the call that enters the event
    loop: the address of the server is announced. *)
Definition start (self : IPythonNotebookApp) : IPythonNotebookApp :=
  let ip := if Py.truthy (ip self) then ip self
            else "[all ip addresses on your system]" in
  log_emit INFO
    (format_args "The IPython Notebook is running at: http://%s:%i"
       [Arg_s ip; Arg_i (port self)]) self.

Section EntryPoint.

Variable dirname : string.
Variable sys_argv : list string.
Variable command_line_config : list string -> option (list assignment).
Variable profile_config : list assignment.
Variable can_listen : Z -> string -> bool.

(** [launch_new_instance], up to the event loop. *)
Definition launch_new_instance : option IPythonNotebookApp :=
  let app := new_app in
  app ← initialize dirname sys_argv command_line_config profile_config
          can_listen app None;
  Some (start app).

End EntryPoint.

(** The value the last assignment to [ip] in a configuration gives. *)
Fixpoint last_ip (cfg : list assignment) : option string :=
  match cfg with
  | [] => None
  | x :: rest =>
      match last_ip rest with
      | Some v => Some v
      | None => match x with Set_ip v => Some v | _ => None end
      end
  end.

(* ================================================================== *)
(** * Properties *)

(** ** Compiling the URL table *)

Lemma os_path_join_truthy (a b : string) :
  Py.truthy b = true -> Py.truthy (os_path_join a b) = true.
Proof.
  unfold os_path_join. destruct a as [| c a]; cbn; [done |].
  intros _. by destruct (negb _).
Qed.

Lemma NotebookWebApplication_compiled (dirname : string) :
  NotebookWebApplication dirname
  = Some (compiled_routes {[ "path" := os_path_join dirname "static" ]}).
Proof.
  unfold NotebookWebApplication, Application.
  rewrite lookup_insert_ne, lookup_singleton_eq by done.
  rewrite os_path_join_truthy by done.
  rewrite lookup_insert_ne, lookup_singleton_ne by done.
  reflexivity.
Qed.

Lemma kernel_handlers_eq :
  kernel_handlers
  = [ ("/kernels", MainKernelHandler, ∅);
      (format "/kernels/%s" [_kernel_id_regex], KernelHandler, ∅);
      (format "/kernels/%s/%s" [_kernel_id_regex; _kernel_action_regex],
         KernelActionHandler, ∅);
      (format "/kernels/%s/iopub" [_kernel_id_regex], ZMQStreamHandler,
         {[ "stream_name" := "iopub" ]});
      (format "/kernels/%s/shell" [_kernel_id_regex], ZMQStreamHandler,
         {[ "stream_name" := "shell" ]}) ].
Proof. reflexivity. Qed.

(** ** Properties of trait assignment and configuration *)

Lemma with_ip_same (self : IPythonNotebookApp) : with_ip (ip self) self = self.
Proof. by destruct self. Qed.

(** Assignment to [ip] always completes once two nested calls are allowed:
    the handler's own assignment of [u''] triggers the handler once more,
    and that call does nothing. *)
Lemma setattr_ip_total (fuel : nat) (v : string) (self : IPythonNotebookApp) :
  (2 <= fuel)%nat ->
  exists self', setattr_ip fuel v self = Some self'
    /\ port self' = port self /\ certfile self' = certfile self
    /\ keyfile self' = keyfile self /\ kernel_argv self' = kernel_argv self
    /\ log self' = log self /\ http_server self' = http_server self
    /\ (ip self <> "*" -> ip self' = if String.eqb v "*" then "" else v).
Proof.
  intros Hfuel.
  destruct fuel as [|[|fuel]]; [lia | lia |].
  cbn [setattr_ip]. destruct (String.eqb_spec (ip self) v) as [Heq | Hne].
  - exists self. repeat split; try done. intros Hstar. subst v.
    by destruct (String.eqb_spec (ip self) "*").
  - unfold _ip_changed. destruct (String.eqb_spec v "*") as [-> | Hv].
    + exists (with_ip "" (with_ip "*" self)). by repeat split.
    + exists (with_ip v self). by repeat split.
Qed.

Lemma assign_total (x : assignment) (self : IPythonNotebookApp) :
  exists self', assign x self = Some self'
    /\ kernel_argv self' = kernel_argv self /\ log self' = log self
    /\ http_server self' = http_server self
    /\ (ip self <> "*" -> ip self' <> "*").
Proof.
  destruct x as [v | v | v | v]; cbn [assign]; try by eexists.
  destruct (setattr_ip_total recursion_limit v self) as (self' & -> & H);
    [unfold recursion_limit; lia |].
  exists self'. destruct H as (_ & _ & _ & ? & ? & ? & Hip).
  repeat split; try done. intros Hne. rewrite (Hip Hne).
  by destruct (String.eqb_spec v "*").
Qed.

Lemma update_config_total (cfg : list assignment) (self : IPythonNotebookApp) :
  exists self', update_config cfg self = Some self'
    /\ kernel_argv self' = kernel_argv self /\ log self' = log self
    /\ http_server self' = http_server self
    /\ (ip self <> "*" -> ip self' <> "*").
Proof.
  revert self. induction cfg as [| x cfg IH]; intros self; cbn [update_config].
  - by exists self.
  - destruct (assign_total x self) as (s1 & -> & Hk & Hl & Hh & Hi). cbn.
    destruct (IH s1) as (s2 & -> & Hk2 & Hl2 & Hh2 & Hi2).
    exists s2. repeat split; try congruence. auto.
Qed.

(** With no frontend flag to scrub, the loop removes nothing. *)
Lemma scrub_no_flags (argv kernel_argv : list string) :
  scrub [] argv kernel_argv = Some kernel_argv.
Proof.
  induction argv as [| a rest IH]; cbn [scrub]; [done |].
  unfold Py.contains. cbn [existsb]. by rewrite andb_false_r.
Qed.

(** With a frontend flag, the loop does remove it from the copy. *)
Example scrub_removes_flag :
  scrub ["no-browser"] ["--no-browser"; "--pylab=inline"]
        ["--no-browser"; "--pylab=inline"; parent_appname_arg]
  = Some ["--pylab=inline"; parent_appname_arg].
Proof. reflexivity. Qed.

Section ApplicationProperties.

Variable dirname : string.
Variable sys_argv : list string.
Variable command_line_config : list string -> option (list assignment).
Variable profile_config : list assignment.
Variable can_listen : Z -> string -> bool.

Local Abbreviation parse := (parse_command_line sys_argv command_line_config).
Local Abbreviation init :=
  (initialize dirname sys_argv command_line_config profile_config can_listen).
Local Abbreviation routes :=
  (compiled_routes {[ "path" := os_path_join dirname "static" ]}).

Lemma parse_command_line_spec (self : IPythonNotebookApp)
    (argv : option (list string)) (cfg : list assignment) :
  command_line_config (default sys_argv argv) = Some cfg ->
  exists self',
    update_config cfg self = Some self'
    /\ parse self argv
       = Some (with_kernel_argv
                 (default sys_argv argv ++ [parent_appname_arg])%list self',
               argv).
Proof.
  intros Hcfg. unfold parse_command_line.
  rewrite Hcfg. cbn.
  destruct (update_config_total cfg self) as (self' & Hupd & _).
  exists self'. split; [done |]. rewrite Hupd. cbn.
  unfold notebook_flags. by rewrite scrub_no_flags.
Qed.

(** [initialize] is the configuration of the traits, the construction of
    the routing kernel manager and of the web application, and [serve]. *)
Lemma initialize_inv (self app' : IPythonNotebookApp)
    (argv : option (list string)) :
  init self argv = Some app' ->
  exists configured,
    serve can_listen routes configured = Some app'
    /\ log configured = log self
    /\ (ip self <> "*" -> ip configured <> "*")
    /\ kernel_argv configured
       = (default sys_argv argv ++ [parent_appname_arg])%list
    /\ routing_kernel_manager configured
       = Some {| rkm_kernel_argv := kernel_argv configured |}
    /\ web_app configured = Some routes.
Proof.
  unfold initialize, parse_command_line.
  destruct (command_line_config (default sys_argv argv)) as [cfg|];
    [cbn | done].
  destruct (update_config_total cfg self) as (s1 & -> & _ & Hl1 & _ & Hi1).
  cbn. unfold notebook_flags. rewrite scrub_no_flags. cbn.
  destruct (update_config_total profile_config
              (with_kernel_argv (default sys_argv argv ++ [parent_appname_arg])%list s1))
    as (s2 & -> & Hk2 & Hl2 & _ & Hi2).
  cbn. rewrite NotebookWebApplication_compiled. cbn. intros Hserve.
  eexists. split; [exact Hserve |]. cbn. split; [by rewrite Hl2 |].
  split; [| by rewrite Hk2].
  intros Hne. apply Hi2. cbn. by apply Hi1.
Qed.


(** A call of [serve] that returns has changed nothing but the log and the
    server. *)
Lemma serve_fields (app : list URLSpec) (self self' : IPythonNotebookApp) :
  serve can_listen app self = Some self' ->
  ip self' = ip self /\ port self' = port self
  /\ certfile self' = certfile self
  /\ keyfile self' = keyfile self
  /\ kernel_argv self' = kernel_argv self
  /\ routing_kernel_manager self' = routing_kernel_manager self
  /\ web_app self' = web_app self.
Proof.
  unfold serve.
  destruct (bool_decide _ && negb (Py.truthy (ip self)));
    cbn [port ip log_emit]; destruct (can_listen _ _); try done;
    by intros [= <-].
Qed.

(** A call of [serve] that returns has bound the socket. *)
Lemma serve_listens (app : list URLSpec) (self self' : IPythonNotebookApp) :
  serve can_listen app self = Some self' ->
  can_listen (port self) (ip self) = true
  /\ exists srv, http_server self' = Some srv
       /\ request_callback srv = app
       /\ listening srv = Some (port self, ip self)
       /\ ssl_options srv
          = (if Py.truthy (certfile self) then
               Some (if Py.truthy (keyfile self)
                     then <[ "keyfile" := keyfile self ]>
                            ({[ "certfile" := certfile self ]} : gmap string string)
                     else {[ "certfile" := certfile self ]})
             else None).
Proof.
  unfold serve.
  destruct (bool_decide _ && negb (Py.truthy (ip self)));
    cbn [port ip log_emit]; destruct (can_listen _ _); try done;
    intros [= <-]; (split; [done |]); eexists; by cbn.
Qed.

Lemma serve_log (app : list URLSpec) (self self' : IPythonNotebookApp) :
  serve can_listen app self = Some self' ->
  log self' = if negb (Py.truthy (certfile self)) && negb (Py.truthy (ip self))
              then (log self ++ [(CRITICAL, insecure_warning)])%list
              else log self.
Proof.
  unfold serve. destruct (certfile self), (ip self); cbn;
    destruct (can_listen _ _); try done; by intros [= <-].
Qed.

(** The kernels started by the routing kernel manager are given the
    command line of the frontend and the parent application's name. *)
Lemma kernels_inherit_argv (self app' : IPythonNotebookApp)
    (argv : option (list string)) :
  init self argv = Some app' ->
  routing_kernel_manager app'
  = Some {| rkm_kernel_argv :=
              (default sys_argv argv ++ [parent_appname_arg])%list |}.
Proof.
  intros (c & Hserve & _ & _ & Hk & Hr & _)%initialize_inv.
  destruct (serve_fields routes c _ Hserve) as (_ & _ & _ & _ & _ & -> & _).
  by rewrite Hr, Hk.
Qed.

Lemma truthy_empty (s : string) : Py.truthy s = false <-> s = "".
Proof. by destruct s. Qed.

(** C8: for every argument list [argv] that the base class accepts,
    [parse_command_line(argv)] returns with [kernel_argv] equal to [argv]
    followed by the single argument
    [--KernelApp.parent_appname='ipython-notebook']; nothing is removed,
    because [notebook_flags] is empty, and the caller's [argv] is left as
    it was. *)
Theorem kernel_argv_inherits_argv (self : IPythonNotebookApp)
    (argv : list string) (cfg : list assignment) :
  command_line_config argv = Some cfg ->
  exists self',
    parse self (Some argv) = Some (self', Some argv)
    /\ kernel_argv self'
       = (argv ++ ["--KernelApp.parent_appname='ipython-notebook'"])%list.
Proof.
  intros Hcfg.
  destruct (parse_command_line_spec self (Some argv) cfg Hcfg) as (s1 & _ & Hp).
  eexists. split; [exact Hp |]. reflexivity.
Qed.

(** C9: the SSL options handed to the HTTP server by [initialize] are
    [None] whenever [certfile] is empty, whatever [keyfile] is; when they
    are a dictionary, it holds the key file only if both [certfile] and
    [keyfile] are non-empty, and it does hold it in that case. *)
Theorem ssl_options_keyfile (self app' : IPythonNotebookApp)
    (argv : option (list string)) :
  init self argv = Some app' ->
  exists srv, http_server app' = Some srv
    /\ (certfile app' = "" -> ssl_options srv = None)
    /\ (forall d k, ssl_options srv = Some d -> d !! "keyfile" = Some k ->
          certfile app' <> "" /\ keyfile app' <> "" /\ k = keyfile app')
    /\ (certfile app' <> "" -> keyfile app' <> "" ->
          exists d, ssl_options srv = Some d
            /\ d !! "certfile" = Some (certfile app')
            /\ d !! "keyfile" = Some (keyfile app')).
Proof.
  intros Hinit. destruct (initialize_inv _ _ _ Hinit) as (c & Hserve & _).
  destruct (serve_fields routes c _ Hserve) as (_ & _ & -> & -> & _).
  destruct (serve_listens routes c _ Hserve) as (_ & srv & Hsrv & _ & _ & Hssl).
  exists srv. split; [exact Hsrv |]. rewrite Hssl. clear Hsrv Hssl.
  destruct (certfile c) as [| a cf] eqn:Hc; cbn [Py.truthy].
  - split; [done |]. split; [done |]. by intros [].
  - split; [done |].
    destruct (keyfile c) as [| b kf] eqn:Hk; cbn [Py.truthy].
    + split; [| by intros _ []].
      intros d k [= <-]. by rewrite lookup_singleton_ne.
    + split.
      * intros d k [= <-]. rewrite lookup_insert_eq. by intros [= <-].
      * intros _ _. eexists. split; [reflexivity |].
        by rewrite lookup_insert_ne, lookup_singleton_eq, lookup_insert_eq.
Qed.

(** What [initialize] adds to the log. *)
Lemma initialize_log (self app' : IPythonNotebookApp)
    (argv : option (list string)) :
  init self argv = Some app' ->
  log app' = if negb (Py.truthy (certfile app')) && negb (Py.truthy (ip app'))
             then (log self ++ [(CRITICAL, insecure_warning)])%list
             else log self.
Proof.
  intros Hinit. destruct (initialize_inv _ _ _ Hinit) as (c & Hserve & <- & _).
  destruct (serve_fields routes c _ Hserve) as (-> & _ & -> & _).
  by apply (serve_log routes).
Qed.

(** C1, as the code has it: [initialize] logs the critical warning exactly
    when no certificate file is configured and the server listens on all
    addresses ([ip] empty, which is also what [*] is turned into); with a
    certificate file, or with [ip] a loopback address or any other
    address, it logs nothing. *)
Theorem insecure_warning_all_interfaces (self app' : IPythonNotebookApp)
    (argv : option (list string)) :
  init self argv = Some app' ->
  (certfile app' = "" /\ ip app' = "" ->
     log app' = (log self ++ [(CRITICAL, insecure_warning)])%list)
  /\ (~ (certfile app' = "" /\ ip app' = "") -> log app' = log self)
  /\ (certfile app' <> "" \/ is_loopback (ip app') = true ->
       log app' = log self).
Proof.
  intros Hinit. rewrite (initialize_log _ _ _ Hinit). split; [| split].
  - by intros [-> ->].
  - intros Hn. destruct (certfile app'), (ip app'); try done. by destruct Hn.
  - intros [Hc | Hl]; destruct (certfile app'), (ip app'); try done.
Qed.

(** C10: assigning [ip] always completes and never leaves [*] in the
    trait: [*] is rewritten to the empty string by the change handler and
    every other value is stored as it is.  Hence what [initialize] passes
    to [listen] and tests for the warning is never [*]. *)
Theorem ip_never_star (self app' : IPythonNotebookApp)
    (argv : option (list string)) :
  ip self <> "*" ->
  init self argv = Some app' ->
  (forall v, exists self', setattr_ip recursion_limit v self = Some self'
      /\ ip self' = (if String.eqb v "*" then "" else v) /\ ip self' <> "*")
  /\ ip app' <> "*"
  /\ (exists srv, http_server app' = Some srv
        /\ listening srv = Some (port app', ip app'))
  /\ (log app' <> log self <-> certfile app' = "" /\ ip app' = "").
Proof.
  intros Hself Hinit. split; [| split; [| split]].
  - intros v.
    destruct (setattr_ip_total recursion_limit v self) as (s' & Hs & H);
      [unfold recursion_limit; lia |].
    exists s'. split; [done |].
    destruct H as (_ & _ & _ & _ & _ & _ & Hip). rewrite (Hip Hself).
    split; [done |]. by destruct (String.eqb_spec v "*").
  - destruct (initialize_inv _ _ _ Hinit) as (c & Hserve & _ & Hip & _).
    destruct (serve_fields routes c _ Hserve) as (-> & _). auto.
  - destruct (initialize_inv _ _ _ Hinit) as (c & Hserve & _ & Hip & _).
    destruct (serve_fields routes c _ Hserve) as (-> & -> & _).
    destruct (serve_listens routes c _ Hserve) as (_ & srv & Hsrv & _ & Hl & _).
    by exists srv.
  - rewrite (initialize_log _ _ _ Hinit).
    destruct (certfile app'), (ip app'); cbn; split; try done;
      try (by intros []).
    intros _ Heq. apply (f_equal length) in Heq.
    rewrite length_app in Heq. cbn in Heq. lia.
Qed.

End ApplicationProperties.

(** ** Concrete runs of the start-up code *)

(** [ipython notebook --ip=*]: the kernels get the argument too. *)
Lemma kernel_argv_inherits_argv_witness :
  (fun _ : list string => Some [Set_ip "*"]) ["--ip=*"] = Some [Set_ip "*"]
  /\ exists self',
       parse_command_line [] (fun _ => Some [Set_ip "*"]) new_app
         (Some ["--ip=*"]) = Some (self', Some ["--ip=*"])
       /\ kernel_argv self'
          = ["--ip=*"; "--KernelApp.parent_appname='ipython-notebook'"].
Proof.
  split; [reflexivity |].
  apply (kernel_argv_inherits_argv [] (fun _ => Some [Set_ip "*"]) new_app
           ["--ip=*"] [Set_ip "*"]).
  reflexivity.
Defined.

(** [ipython notebook --certfile=mycert.pem --keyfile=mykey.pem]. *)
Lemma ssl_options_keyfile_witness :
  exists app',
    initialize demo_dirname []
      (fun _ => Some [Set_certfile "mycert.pem"; Set_keyfile "mykey.pem"]) []
      demo_host new_app None = Some app'
    /\ exists srv, http_server app' = Some srv
        /\ (certfile app' = "" -> ssl_options srv = None)
        /\ (forall d k, ssl_options srv = Some d -> d !! "keyfile" = Some k ->
              certfile app' <> "" /\ keyfile app' <> "" /\ k = keyfile app')
        /\ (certfile app' <> "" -> keyfile app' <> "" ->
              exists d, ssl_options srv = Some d
                /\ d !! "certfile" = Some (certfile app')
                /\ d !! "keyfile" = Some (keyfile app')).
Proof.
  eexists. split; [reflexivity |].
  apply (ssl_options_keyfile demo_dirname []
           (fun _ => Some [Set_certfile "mycert.pem"; Set_keyfile "mykey.pem"])
           [] demo_host new_app _ None).
  reflexivity.
Defined.

(** [ipython notebook --ip=*] without a certificate: the warning is
    logged. *)
Lemma insecure_warning_all_interfaces_witness :
  exists app',
    initialize demo_dirname [] (fun _ => Some [Set_ip "*"]) [] demo_host new_app None = Some app'
    /\ (certfile app' = "" /\ ip app' = "" ->
          log app' = (log new_app ++ [(CRITICAL, insecure_warning)])%list)
    /\ (~ (certfile app' = "" /\ ip app' = "") -> log app' = log new_app)
    /\ (certfile app' <> "" \/ is_loopback (ip app') = true ->
          log app' = log new_app).
Proof.
  eexists. split; [reflexivity |].
  apply (insecure_warning_all_interfaces demo_dirname [] (fun _ => Some [Set_ip "*"]) []
           demo_host new_app _ None).
  reflexivity.
Defined.

(** C1 as the specification words it fails: bound to the non-loopback
    address 192.168.1.5 without a certificate, [initialize] logs nothing. *)
Lemma insecure_warning_counterexample :
  ~ (forall dirname sys_argv command_line_config profile_config can_listen
            self argv app',
       initialize dirname sys_argv command_line_config profile_config
         can_listen self argv = Some app' ->
       (In (CRITICAL, insecure_warning) (log app')
        <-> certfile app' = "" /\ is_loopback (ip app') = false)).
Proof.
  intros H.
  specialize (H demo_dirname [] (fun _ => Some [Set_ip "192.168.1.5"]) [] demo_host new_app None
                _ eq_refl).
  destruct H as [_ H]. specialize (H (conj eq_refl eq_refl)).
  cbn in H. exact H.
Qed.

(** The same run, traced: address, certificate and log after start-up. *)
Example non_loopback_no_warning :
  (fun app => (ip app, certfile app, log app)) <$>
    initialize demo_dirname [] (fun _ => Some [Set_ip "192.168.1.5"]) [] demo_host new_app None
  = Some ("192.168.1.5", "", []).
Proof. reflexivity. Qed.

(** [ipython notebook --ip=*]: the server listens on the empty address. *)
Lemma ip_never_star_witness :
  ip new_app <> "*"
  /\ exists app',
    initialize demo_dirname [] (fun _ => Some [Set_ip "*"]) [] demo_host new_app None = Some app'
    /\ (forall v, exists self',
          setattr_ip recursion_limit v new_app = Some self'
          /\ ip self' = (if String.eqb v "*" then "" else v)
          /\ ip self' <> "*")
    /\ ip app' <> "*"
    /\ (exists srv, http_server app' = Some srv
          /\ listening srv = Some (port app', ip app'))
    /\ (log app' <> log new_app <-> certfile app' = "" /\ ip app' = "").
Proof.
  split; [discriminate |].
  eexists. split; [reflexivity |].
  apply (ip_never_star demo_dirname [] (fun _ => Some [Set_ip "*"]) []
           demo_host new_app _ None).
  - discriminate.
  - reflexivity.
Defined.

Example star_listens_everywhere :
  (fun app => (ip app, listening <$> http_server app)) <$>
    initialize demo_dirname [] (fun _ => Some [Set_ip "*"]) [] demo_host new_app None
  = Some ("", Some (Some (8888, ""))).
Proof. reflexivity. Qed.

(** ** The matcher *)

Lemma strip_prefix_spec (p s t : list ascii) :
  strip_prefix p s = Some t <-> s = p ++ t.
Proof.
  revert s. induction p as [| c p IH]; intros s; cbn.
  - split; [by intros [= ->] | by intros ->].
  - destruct s as [| c' s]; [done |].
    destruct (Ascii.eqb_spec c c') as [<- | Hne].
    + rewrite IH. split; [by intros -> | by intros [= ->]].
    + split; [done | by intros [= <- _]].
Qed.

Lemma in_run_Str (p : string) (s t : list ascii) :
  In t (run (Str p) s) <-> s = list_ascii_of_string p ++ t.
Proof.
  cbn. destruct (strip_prefix _ s) as [t' |] eqn:E.
  - apply strip_prefix_spec in E. subst s. cbn. split.
    + by intros [-> | []].
    + intros H. apply app_inv_head in H. by left.
  - split; [done |]. intros H. apply strip_prefix_spec in H. congruence.
Qed.

Lemma in_run_Cat (r1 r2 : regex) (s t : list ascii) :
  In t (run (Cat r1 r2) s) <-> exists u, In u (run r1 s) /\ In t (run r2 u).
Proof. cbn. apply in_flat_map. Qed.

Lemma in_run_Alt (r1 r2 : regex) (s t : list ascii) :
  In t (run (Alt r1 r2) s) <-> In t (run r1 s) \/ In t (run r2 s).
Proof. cbn. apply in_app_iff. Qed.

Lemma in_run_Group (n : option string) (r : regex) (s t : list ascii) :
  In t (run (Group n r) s) <-> In t (run r s).
Proof. done. Qed.

Lemma in_run_Eol (s t : list ascii) :
  In t (run Eol s) <-> t = s /\ at_end s = true.
Proof.
  cbn. destruct (at_end s); cbn; [| by intuition].
  split; [by intros [-> | []] | by intros [-> _]; left].
Qed.

Lemma re_match_true (r : regex) (s : list ascii) :
  re_match r s = true <-> exists t, In t (run r s).
Proof.
  unfold re_match. destruct (run r s) as [| t l].
  - split; [done | by intros [? []]].
  - split; [| done]. intros _. exists t. by left.
Qed.

Lemma re_match_false (r : regex) (s : list ascii) :
  re_match r s = false <-> forall t, ~ In t (run r s).
Proof.
  rewrite <- not_true_iff_false, re_match_true. split.
  - intros H t Ht. apply H. by exists t.
  - intros H [t Ht]. by apply (H t).
Qed.

Lemma re_fullmatch_true (r : regex) (s : list ascii) :
  re_fullmatch r s = true <-> In [] (run r s).
Proof.
  unfold re_fullmatch. rewrite existsb_exists. split.
  - intros ([| ? ?] & Hin & Ht); [done | discriminate].
  - intros H. by exists [].
Qed.

(** [\w+] takes off a non-empty run of word characters, of any length the
    subject allows. *)
Lemma in_plus_iter_Word (fuel : nat) (s t : list ascii) :
  (length s < fuel)%nat ->
  In t (plus_iter (run Word) fuel s) <-> exists w, word_run w /\ s = w ++ t.
Proof.
  revert s. induction fuel as [| fuel IH]; intros s Hlen; [lia |].
  cbn [plus_iter run]. destruct s as [| c s'].
  { cbn. split; [done |]. intros (w & [Hne _] & Hs).
    symmetry in Hs. apply app_eq_nil in Hs as [-> _]. done. }
  cbn [length] in Hlen.
  destruct (is_word c) eqn:Hc.
  - cbn [flat_map]. rewrite app_nil_r, in_app_iff.
    assert (Hlt : (length s' <? length (c :: s'))%nat = true).
    { apply Nat.ltb_lt. cbn. lia. }
    rewrite Hlt, IH by lia. split.
    + intros [(w & [Hne Hw] & ->) | [<- | []]].
      * exists (c :: w). split; [| done]. split; [done |]. by constructor.
      * exists [c]. split; [| done]. split; [done |]. by repeat constructor.
    + intros (w & [Hne Hw] & Hs). destruct w as [| c' w]; [done |].
      injection Hs as <- ->. inversion_clear Hw as [| ? ? _ Hw'].
      destruct w as [| c'' w].
      * right. by left.
      * left. by exists (c'' :: w).
  - cbn. split; [done |]. intros (w & [Hne Hw] & Hs).
    destruct w as [| c' w]; [done |]. injection Hs as <- ->.
    inversion_clear Hw. congruence.
Qed.

Lemma in_run_Plus_Word (s t : list ascii) :
  In t (run (Plus Word) s) <-> exists w, word_run w /\ s = w ++ t.
Proof. cbn [run]. apply in_plus_iter_Word. lia. Qed.

(** The identifier pattern takes off five hyphen-separated word runs. *)
Lemma in_run_id_pattern (s t : list ascii) :
  In t (run id_pattern s) <-> exists W, five_words W /\ s = W ++ t.
Proof.
  unfold id_pattern. split.
  - intros H.
    apply in_run_Cat in H as (? & (w1 & Hw1 & ->)%in_run_Plus_Word & H).
    apply in_run_Cat in H as (? & ->%in_run_Str & H).
    apply in_run_Cat in H as (? & (w2 & Hw2 & ->)%in_run_Plus_Word & H).
    apply in_run_Cat in H as (? & ->%in_run_Str & H).
    apply in_run_Cat in H as (? & (w3 & Hw3 & ->)%in_run_Plus_Word & H).
    apply in_run_Cat in H as (? & ->%in_run_Str & H).
    apply in_run_Cat in H as (? & (w4 & Hw4 & ->)%in_run_Plus_Word & H).
    apply in_run_Cat in H as (? & ->%in_run_Str & H).
    apply in_run_Plus_Word in H as (w5 & Hw5 & ->).
    eexists. split.
    + by exists w1, w2, w3, w4, w5.
    + cbn. by repeat (rewrite <- app_assoc; cbn).
  - intros (W & (w1 & w2 & w3 & w4 & w5 & H1 & H2 & H3 & H4 & H5 & ->) & ->).
    repeat (rewrite <- app_assoc; cbn [app]).
    apply in_run_Cat. eexists. split.
    { apply in_run_Plus_Word. by exists w1. }
    apply in_run_Cat. eexists. split; [by apply in_run_Str |].
    apply in_run_Cat. eexists. split.
    { apply in_run_Plus_Word. by exists w2. }
    apply in_run_Cat. eexists. split; [by apply in_run_Str |].
    apply in_run_Cat. eexists. split.
    { apply in_run_Plus_Word. by exists w3. }
    apply in_run_Cat. eexists. split; [by apply in_run_Str |].
    apply in_run_Cat. eexists. split.
    { apply in_run_Plus_Word. by exists w4. }
    apply in_run_Cat. eexists. split; [by apply in_run_Str |].
    apply in_run_Plus_Word. by exists w5.
Qed.

(** ** Characters of an identifier *)

Lemma word_run_cons (w : list ascii) :
  word_run w -> exists c w', w = c :: w' /\ is_word c = true.
Proof.
  intros [Hne Hw]. destruct w as [| c w']; [done |].
  inversion_clear Hw. by exists c, w'.
Qed.

Lemma five_words_chars (W : list ascii) :
  five_words W -> Forall (fun c => is_word c = true \/ c = "-"%char) W.
Proof.
  intros (w1 & w2 & w3 & w4 & w5 & [_ H1] & [_ H2] & [_ H3] & [_ H4] & [_ H5] & ->).
  rewrite List.Forall_forall in *. intros c Hin.
  repeat (apply in_app_iff in Hin as [Hin | [<- | Hin]]; [by left; auto | by right |]).
  left. auto.
Qed.

(** A character that is neither a word character nor the hyphen does not
    occur in an identifier. *)
Lemma five_words_not_in (c : ascii) (W : list ascii) :
  five_words W -> is_word c = false -> c <> "-"%char -> ~ In c W.
Proof.
  intros HW Hc Hh Hin. apply five_words_chars in HW.
  rewrite List.Forall_forall in HW. destruct (HW c Hin); congruence.
Qed.

Lemma five_words_no_slash (W : list ascii) :
  five_words W -> ~ In "/"%char W.
Proof. intros HW. by apply five_words_not_in. Qed.

Lemma five_words_no_LF (W : list ascii) : five_words W -> ~ In LF W.
Proof. intros HW. by apply five_words_not_in. Qed.

Lemma five_words_hyphen (W : list ascii) : five_words W -> In "-"%char W.
Proof.
  intros (w1 & w2 & w3 & w4 & w5 & _ & _ & _ & _ & _ & ->).
  apply in_app_iff. right. by left.
Qed.

Lemma at_end_cases (t : list ascii) : at_end t = true <-> t = [] \/ t = [LF].
Proof.
  destruct t as [| c [| c' t]]; cbn.
  - by intuition.
  - destruct (Ascii.eqb_spec c LF) as [-> | Hne].
    + by intuition.
    + split; [done |]. intros [| [= ->]]; done.
  - split; [done |]. by intros [|].
Qed.

(** ** Splitting a path at a separator *)

(** When [c] occurs neither in [a] nor in [b], the first [c] of
    [a ++ c :: x] is the one written. *)
Lemma split_at_first (c : ascii) (a b x y : list ascii) :
  ~ In c a -> ~ In c b -> a ++ c :: x = b ++ c :: y -> a = b /\ x = y.
Proof.
  revert b. induction a as [| h a IH]; intros [| h' b] Ha Hb Heq; cbn in *.
  - by injection Heq as ->.
  - injection Heq as -> _. destruct Hb. by left.
  - injection Heq as -> _. destruct Ha. by left.
  - injection Heq as -> Heq.
    destruct (IH b) as [-> ->]; [by intuition | by intuition | done | done].
Qed.

(** When [c] does not occur in [a] and [a ++ x] runs through [b] up to a
    [c], then [a] ends inside [b]. *)
Lemma prefix_before (c : ascii) (a b x y : list ascii) :
  ~ In c a -> a ++ x = b ++ c :: y -> exists d, b = a ++ d.
Proof.
  revert b. induction a as [| h a IH]; intros b Ha Heq; cbn in *.
  - by exists b.
  - destruct b as [| h' b]; cbn in *.
    + injection Heq as -> _. destruct Ha. by left.
    + injection Heq as -> Heq.
      destruct (IH b) as [d ->]; [by intuition | done |]. by exists d.
Qed.

(** ** Which paths a route matches *)

Lemma match_Eol (s : list ascii) : re_match Eol s = at_end s.
Proof. unfold re_match. cbn. by destruct (at_end s). Qed.

Lemma match_plain_route (text : string) (path : list ascii) :
  re_match (plain_route text) path = true
  <-> exists t, path = list_ascii_of_string text ++ t /\ at_end t = true.
Proof.
  rewrite re_match_true. unfold plain_route. split.
  - intros (t & (u & ->%in_run_Str & [-> Hend]%in_run_Eol)%in_run_Cat).
    by exists u.
  - intros (t & -> & Hend). exists t. apply in_run_Cat. exists t.
    split; [by apply in_run_Str | by apply in_run_Eol].
Qed.

Lemma match_id_route (prefix group : string) (tail : regex)
    (path : list ascii) :
  re_match (id_route prefix group tail) path = true
  <-> exists W rest,
        five_words W /\ path = list_ascii_of_string prefix ++ W ++ rest
        /\ re_match tail rest = true.
Proof.
  rewrite re_match_true. unfold id_route. split.
  - intros (t & (u & ->%in_run_Str & (v & Hid & Ht)%in_run_Cat)%in_run_Cat).
    apply in_run_Group, in_run_id_pattern in Hid as (W & HW & ->).
    exists W, v. repeat split; [done |]. apply re_match_true. by exists t.
  - intros (W & rest & HW & -> & (t & Ht)%re_match_true).
    exists t. apply in_run_Cat. eexists. split; [by apply in_run_Str |].
    apply in_run_Cat. exists rest. split; [| done].
    apply in_run_Group, in_run_id_pattern. by exists W.
Qed.

Lemma match_action_tail (rest : list ascii) :
  re_match action_tail rest = true
  <-> exists a t, (a = "restart" \/ a = "interrupt")
        /\ rest = "/"%char :: list_ascii_of_string a ++ t /\ at_end t = true.
Proof.
  rewrite re_match_true. unfold action_tail. split.
  - intros (t & (u & ->%in_run_Str & (v & Ha & [-> Hend]%in_run_Eol)%in_run_Cat)%in_run_Cat).
    apply in_run_Group, in_run_Alt in Ha as [->%in_run_Str | ->%in_run_Str].
    + exists "restart", v. by intuition.
    + exists "interrupt", v. by intuition.
  - intros (a & t & Ha & -> & Hend). exists t.
    apply in_run_Cat. eexists. split; [by apply in_run_Str |].
    apply in_run_Cat. exists t. split; [| by apply in_run_Eol].
    apply in_run_Group, in_run_Alt.
    destruct Ha as [-> | ->]; [left | right]; by apply in_run_Str.
Qed.

(** The identifier pattern matches a segment as a whole exactly when the
    segment is five hyphen-separated word runs. *)
Lemma matches_id_pattern (s : list ascii) :
  matches_pattern _kernel_id_regex s = true <-> five_words s.
Proof.
  change (matches_pattern _kernel_id_regex s)
    with (re_fullmatch (Group (Some "kernel_id") id_pattern) s).
  rewrite re_fullmatch_true, in_run_Group, in_run_id_pattern. split.
  - intros (W & HW & ->). by rewrite app_nil_r.
  - intros HW. exists s. by rewrite app_nil_r.
Qed.

(** ** Dispatching a path below [/kernels/] *)

Lemma bool_eq_iff (b1 b2 : bool) : (b1 = true <-> b2 = true) -> b1 = b2.
Proof. destruct b1, b2; intuition congruence. Qed.

Lemma dispatch_unfold_false (spec : URLSpec) (specs : list URLSpec)
    (path : list ascii) :
  re_match (spec_regex spec) path = false ->
  dispatch (spec :: specs) path = dispatch specs path.
Proof. intros H. cbn [dispatch]. by rewrite H. Qed.

Lemma dispatch_unfold_true (spec : URLSpec) (specs : list URLSpec)
    (path : list ascii) :
  re_match (spec_regex spec) path = true ->
  dispatch (spec :: specs) path = Some (handler_class_of spec, kwargs spec).
Proof. intros H. cbn [dispatch]. by rewrite H. Qed.

(** No notebook identifier starts a path below [/kernels/]: the segment
    [kernels] has no hyphen. *)
Lemma notebook_route_not_kernels (X : list ascii) :
  re_match (id_route "/" "notebook_id" Eol) (path_of "/kernels/" ++ X) = false.
Proof.
  apply not_true_iff_false. intros (W & rest & HW & Heq & _)%match_id_route.
  injection Heq as Heq.
  destruct (prefix_before "/"%char W (path_of "kernels") rest X) as [d Hd];
    [by apply five_words_no_slash | exact (eq_sym Heq) |].
  pose proof (five_words_hyphen W HW) as Hh.
  assert (Hin : In "-"%char (path_of "kernels")).
  { rewrite Hd. apply in_app_iff. by left. }
  cbn in Hin. intuition discriminate.
Qed.

Lemma kernels_route_not_below (X : list ascii) :
  re_match (plain_route "/kernels") (path_of "/kernels/" ++ X) = false.
Proof. unfold re_match. cbn. by destruct X. Qed.

Lemma dispatch_skip (specs1 specs2 : list URLSpec) (path : list ascii) :
  Forall (fun spec => re_match (spec_regex spec) path = false) specs1 ->
  dispatch (specs1 ++ specs2) path = dispatch specs2 path.
Proof.
  induction 1 as [| spec specs1 Hspec _ IH]; [done |].
  cbn [app]. by rewrite dispatch_unfold_false.
Qed.

(** The routes before the per-kernel ones never take a path below
    [/kernels/]. *)
Lemma dispatch_below_kernels (static_kw : gmap string string)
    (X : list ascii) :
  dispatch (compiled_routes static_kw) (path_of "/kernels/" ++ X)
  = dispatch (drop 7 (compiled_routes static_kw)) (path_of "/kernels/" ++ X).
Proof.
  rewrite <- (take_drop 7 (compiled_routes static_kw)) at 1.
  apply dispatch_skip. unfold compiled_routes. cbn [take].
  repeat (apply Forall_cons; split; [reflexivity |]).
  apply Forall_cons; split; [apply notebook_route_not_kernels |].
  apply Forall_cons; split; [apply kernels_route_not_below |].
  apply Forall_nil_2.
Qed.

(** Below [/kernels/] only the four per-kernel routes are left, tried in
    the order of the URL table. *)
Lemma dispatch_kernel_routes (static_kw : gmap string string)
    (X : list ascii) :
  let path := path_of "/kernels/" ++ X in
  dispatch (compiled_routes static_kw) path
  = if re_match (id_route "/kernels/" "kernel_id" Eol) path
    then Some (KernelHandler, ∅)
    else if re_match (id_route "/kernels/" "kernel_id" action_tail) path
    then Some (KernelActionHandler, ∅)
    else if re_match (id_route "/kernels/" "kernel_id" (plain_route "/iopub")) path
    then Some (ZMQStreamHandler, {[ "stream_name" := "iopub" ]})
    else if re_match (id_route "/kernels/" "kernel_id" (plain_route "/shell")) path
    then Some (ZMQStreamHandler, {[ "stream_name" := "shell" ]})
    else None.
Proof.
  intros path. subst path. rewrite dispatch_below_kernels.
  unfold compiled_routes.
  cbn [drop dispatch spec_regex handler_class_of kwargs].
  change (re_match (plain_route "/notebooks") (path_of "/kernels/" ++ X))
    with false.
  change (re_match (id_route "/notebooks/" "notebook_id" Eol)
            (path_of "/kernels/" ++ X)) with false.
  change (re_match (plain_route "/rstservice/render")
            (path_of "/kernels/" ++ X)) with false.
  reflexivity.
Qed.

Lemma kernel_route_below (group : string) (tail : regex) (X : list ascii) :
  re_match (id_route "/kernels/" group tail) (path_of "/kernels/" ++ X) = true
  <-> exists W rest, five_words W /\ X = W ++ rest /\ re_match tail rest = true.
Proof.
  rewrite match_id_route. split.
  - intros (W & rest & HW & Heq & Ht). exists W, rest.
    split; [done |]. split; [| done].
    by apply (app_inv_head (path_of "/kernels/")).
  - intros (W & rest & HW & -> & Ht). by exists W, rest.
Qed.

(** After an identifier and a slash, the route of the identifier alone
    does not match. *)
Lemma kernel_route_not_deeper (id Y : list ascii) :
  five_words id ->
  re_match (id_route "/kernels/" "kernel_id" Eol)
    (path_of "/kernels/" ++ id ++ "/"%char :: Y) = false.
Proof.
  intros Hid. apply not_true_iff_false.
  intros (W & rest & HW & Heq & Hend)%kernel_route_below.
  rewrite match_Eol in Hend. apply at_end_cases in Hend.
  assert (Hin : In "/"%char (W ++ rest)).
  { rewrite <- Heq. apply in_app_iff. right. by left. }
  apply in_app_iff in Hin as [Hin | Hin].
  - by apply (five_words_no_slash W).
  - destruct Hend as [-> | ->]; cbn in Hin; intuition discriminate.
Qed.

(** After an identifier and a slash, a route whose tail starts with a
    slash matches exactly when its tail matches what follows the
    identifier. *)
Lemma kernel_route_deeper (tail : regex) (id Y : list ascii) :
  five_words id ->
  (forall rest, re_match tail rest = true -> exists r, rest = "/"%char :: r) ->
  re_match (id_route "/kernels/" "kernel_id" tail)
    (path_of "/kernels/" ++ id ++ "/"%char :: Y)
  = re_match tail ("/"%char :: Y).
Proof.
  intros Hid Htail. apply bool_eq_iff. rewrite kernel_route_below. split.
  - intros (W & rest & HW & Heq & Ht).
    destruct (Htail rest Ht) as [r ->].
    apply split_at_first in Heq as [_ ->];
      [done | by apply five_words_no_slash | by apply five_words_no_slash].
  - intros Ht. by exists id, ("/"%char :: Y).
Qed.

Lemma action_tail_slash (rest : list ascii) :
  re_match action_tail rest = true -> exists r, rest = "/"%char :: r.
Proof. intros (a & t & _ & -> & _)%match_action_tail. by eexists. Qed.

Lemma plain_tail_slash (text : string) (rest : list ascii) :
  re_match (plain_route (String "/" text)) rest = true ->
  exists r, rest = "/"%char :: r.
Proof. intros (t & -> & _)%match_plain_route. by eexists. Qed.

(** Dispatch of [/kernels/<id>/<rest>]. *)
Lemma dispatch_kernel_sub (static_kw : gmap string string)
    (id Y : list ascii) :
  five_words id ->
  dispatch (compiled_routes static_kw)
    (path_of "/kernels/" ++ id ++ "/"%char :: Y)
  = if re_match action_tail ("/"%char :: Y)
    then Some (KernelActionHandler, ∅)
    else if re_match (plain_route "/iopub") ("/"%char :: Y)
    then Some (ZMQStreamHandler, {[ "stream_name" := "iopub" ]})
    else if re_match (plain_route "/shell") ("/"%char :: Y)
    then Some (ZMQStreamHandler, {[ "stream_name" := "shell" ]})
    else None.
Proof.
  intros Hid. rewrite dispatch_kernel_routes.
  rewrite (kernel_route_not_deeper id Y Hid).
  rewrite (kernel_route_deeper action_tail id Y Hid action_tail_slash).
  rewrite (kernel_route_deeper _ id Y Hid (plain_tail_slash "iopub")).
  by rewrite (kernel_route_deeper _ id Y Hid (plain_tail_slash "shell")).
Qed.

(** What may follow the slash for each of the three routes. *)
Lemma action_tail_cases (Y : list ascii) :
  re_match action_tail ("/"%char :: Y) = true
  <-> Y = path_of "restart" \/ Y = path_of "interrupt"
      \/ Y = path_of "restart" ++ [LF] \/ Y = path_of "interrupt" ++ [LF].
Proof.
  rewrite match_action_tail. split.
  - intros (a & t & Ha & [= ->] & [-> | ->]%at_end_cases);
      rewrite ?app_nil_r; destruct Ha as [-> | ->]; by intuition.
  - intros [-> | [-> | [-> | ->]]].
    + by exists "restart", []; intuition.
    + by exists "interrupt", []; intuition.
    + by exists "restart", [LF]; intuition.
    + by exists "interrupt", [LF]; intuition.
Qed.

Lemma plain_tail_cases (text : string) (Y : list ascii) :
  re_match (plain_route (String "/" text)) ("/"%char :: Y) = true
  <-> Y = path_of text \/ Y = path_of text ++ [LF].
Proof.
  rewrite match_plain_route. split.
  - intros (t & [= ->] & [-> | ->]%at_end_cases); rewrite ?app_nil_r; by intuition.
  - intros [-> | ->]; [exists [] | exists [LF]]; by rewrite ?app_nil_r.
Qed.

(** Whatever handles a request is an entry of the table. *)
Lemma dispatch_In (specs : list URLSpec) (path : list ascii)
    (h : handler_class) (kw : gmap string string) :
  dispatch specs path = Some (h, kw) ->
  exists spec, In spec specs /\ re_match (spec_regex spec) path = true
    /\ handler_class_of spec = h /\ kwargs spec = kw.
Proof.
  induction specs as [| spec specs IH]; cbn [dispatch]; [done |].
  destruct (re_match (spec_regex spec) path) eqn:E.
  - intros [= <- <-]. exists spec. split; [by left | done].
  - intros (spec' & Hin & H)%IH. exists spec'. split; [by right | done].
Qed.

(** ** UUID strings are identifiers *)

Lemma is_hex_word (c : ascii) : is_hex c = true -> is_word c = true.
Proof.
  unfold is_hex, is_word. cbv zeta. generalize (nat_of_ascii c). intros n.
  rewrite !orb_true_iff, !andb_true_iff, !Nat.leb_le, Nat.eqb_eq. lia.
Qed.

Lemma take_hex_spec (n : nat) (s t : list ascii) :
  take_hex n s = Some t ->
  exists w, length w = n /\ Forall (fun c => is_word c = true) w /\ s = w ++ t.
Proof.
  revert s. induction n as [| n IH]; intros s; cbn [take_hex].
  - intros [= ->]. by exists [].
  - destruct s as [| c s]; [done |]. destruct (is_hex c) eqn:Hc; [| done].
    intros (w & Hlen & Hw & ->)%IH. exists (c :: w). cbn.
    split; [by rewrite Hlen |]. split; [| done].
    constructor; [by apply is_hex_word | done].
Qed.

Lemma take_hex_word_run (n : nat) (s t : list ascii) :
  take_hex (S n) s = Some t -> exists w, word_run w /\ s = w ++ t.
Proof.
  intros (w & Hlen & Hw & ->)%take_hex_spec. exists w. split; [| done].
  split; [| done]. by destruct w.
Qed.

Lemma take_hyphen_spec (s t : list ascii) :
  take_hyphen s = Some t -> s = "-"%char :: t.
Proof.
  destruct s as [| c s]; [done |]. cbn.
  destruct (Ascii.eqb_spec c "-") as [-> | Hne]; [| done]. by intros [= ->].
Qed.

Lemma hex_groups_cons (n m : nat) (sizes : list nat) (s t : list ascii) :
  hex_groups (S n :: m :: sizes) s = Some t ->
  exists w s', word_run w /\ s = w ++ "-"%char :: s'
    /\ hex_groups (m :: sizes) s' = Some t.
Proof.
  intros H.
  change (take_hex (S n) s ≫= (fun t0 =>
            take_hyphen t0 ≫= hex_groups (m :: sizes)) = Some t) in H.
  destruct (take_hex (S n) s) as [s1 |] eqn:E1; [cbn in H | done].
  destruct (take_hyphen s1) as [s2 |] eqn:E2; [cbn in H | done].
  apply take_hex_word_run in E1 as (w & Hw & ->).
  apply take_hyphen_spec in E2 as ->. by exists w, s2.
Qed.

Lemma is_uuid_five_words (s : list ascii) : is_uuid s = true -> five_words s.
Proof.
  unfold is_uuid.
  destruct (hex_groups _ s) as [[| ? ?] |] eqn:E; [| done | done]. intros _.
  apply hex_groups_cons in E as (w1 & ? & Hw1 & -> & E).
  apply hex_groups_cons in E as (w2 & ? & Hw2 & -> & E).
  apply hex_groups_cons in E as (w3 & ? & Hw3 & -> & E).
  apply hex_groups_cons in E as (w4 & ? & Hw4 & -> & E).
  apply take_hex_word_run in E as (w5 & Hw5 & ->).
  exists w1, w2, w3, w4, w5. by rewrite app_nil_r.
Qed.

(** ** The kernel routes exclude each other *)

Lemma main_kernel_route_only (path : list ascii) (group : string)
    (tail : regex) :
  re_match (plain_route "/kernels") path = true ->
  re_match (id_route "/kernels/" group tail) path = false.
Proof.
  intros (t & -> & Hend)%match_plain_route. apply not_true_iff_false.
  intros (W & rest & _ & Heq & _)%match_id_route.
  apply (app_inv_head (path_of "/kernels") t ("/"%char :: W ++ rest)) in Heq.
  subst t. apply at_end_cases in Hend as [? | ?]; discriminate.
Qed.

Lemma kernel_sub_shape (tail : regex) (path : list ascii) :
  (forall rest, re_match tail rest = true -> exists r, rest = "/"%char :: r) ->
  re_match (id_route "/kernels/" "kernel_id" tail) path = true ->
  exists id Y, five_words id
    /\ path = path_of "/kernels/" ++ id ++ "/"%char :: Y
    /\ re_match tail ("/"%char :: Y) = true.
Proof.
  intros Htail (W & rest & HW & -> & Ht)%match_id_route.
  destruct (Htail rest Ht) as [Y ->]. by exists W, Y.
Qed.

Lemma kernel_specs_compiled :
  add_handlers kernel_handlers
  = Some [ Build_URLSpec (plain_route "/kernels") MainKernelHandler ∅;
           Build_URLSpec (id_route "/kernels/" "kernel_id" Eol) KernelHandler ∅;
           Build_URLSpec (id_route "/kernels/" "kernel_id" action_tail)
             KernelActionHandler ∅;
           Build_URLSpec (id_route "/kernels/" "kernel_id" (plain_route "/iopub"))
             ZMQStreamHandler {[ "stream_name" := "iopub" ]};
           Build_URLSpec (id_route "/kernels/" "kernel_id" (plain_route "/shell"))
             ZMQStreamHandler {[ "stream_name" := "shell" ]} ].
Proof. reflexivity. Qed.

(** C5: the five kernel routes compile, and no request path is matched by
    more than one of them, so a path of the kernel family has one handler
    type or none. *)
Theorem kernel_routes_unambiguous :
  exists specs, add_handlers kernel_handlers = Some specs
    /\ length specs = 5%nat
    /\ forall path,
         (length (List.filter
                    (fun spec => re_match (spec_regex spec) path) specs)
          <= 1)%nat.
Proof.
  eexists. split; [apply kernel_specs_compiled |]. split; [done |].
  intros path. cbn [List.filter spec_regex].
  destruct (re_match (plain_route "/kernels") path) eqn:E7.
  { by rewrite !(main_kernel_route_only path _ _ E7). }
  destruct (re_match (id_route _ _ action_tail) path) eqn:E9.
  { apply (kernel_sub_shape _ _ action_tail_slash) in E9
      as (id & Y & Hid & -> & HY).
    rewrite (kernel_route_not_deeper id Y Hid).
    rewrite (kernel_route_deeper _ id Y Hid (plain_tail_slash "iopub")).
    rewrite (kernel_route_deeper _ id Y Hid (plain_tail_slash "shell")).
    apply action_tail_cases in HY as [-> | [-> | [-> | ->]]]; cbn; lia. }
  destruct (re_match (id_route _ _ (plain_route "/iopub")) path) eqn:E10.
  { apply (kernel_sub_shape _ _ (plain_tail_slash "iopub")) in E10
      as (id & Y & Hid & -> & HY).
    rewrite (kernel_route_not_deeper id Y Hid).
    rewrite (kernel_route_deeper _ id Y Hid (plain_tail_slash "shell")).
    apply (plain_tail_cases "iopub") in HY as [-> | ->]; cbn; lia. }
  destruct (re_match (id_route _ _ (plain_route "/shell")) path) eqn:E11.
  { apply (kernel_sub_shape _ _ (plain_tail_slash "shell")) in E11
      as (id & Y & Hid & -> & HY).
    rewrite (kernel_route_not_deeper id Y Hid). cbn. lia. }
  destruct (re_match (id_route _ _ Eol) path); cbn; lia.
Qed.

(** ** The per-kernel routes *)

(** C2, as the router has it: for an identifier [id] that matches the
    kernel identifier pattern, [/kernels/<id>/<action>] is dispatched to
    [KernelActionHandler] exactly when [<action>] is [restart] or
    [interrupt], or one of the two followed by a final line feed (the
    anchor [$] that the router appends also matches before one); for an
    [<action>] without line feed, exactly when it is [restart] or
    [interrupt]. *)
Theorem action_route_exact (dirname : string) (app : list URLSpec)
    (id action : list ascii) :
  NotebookWebApplication dirname = Some app ->
  matches_pattern _kernel_id_regex id = true ->
  (fst <$> dispatch app (path_of "/kernels/" ++ id ++ path_of "/" ++ action)
     = Some KernelActionHandler
   <-> action = path_of "restart" \/ action = path_of "interrupt"
       \/ action = path_of "restart" ++ [LF]
       \/ action = path_of "interrupt" ++ [LF])
  /\ (~ In LF action ->
      (fst <$> dispatch app (path_of "/kernels/" ++ id ++ path_of "/" ++ action)
         = Some KernelActionHandler
       <-> action = path_of "restart" \/ action = path_of "interrupt")).
Proof.
  intros Happ Hid. rewrite NotebookWebApplication_compiled in Happ.
  injection Happ as <-. apply matches_id_pattern in Hid.
  change (path_of "/" ++ action) with ("/"%char :: action).
  assert (Hgoal :
    fst <$> dispatch
              (compiled_routes {[ "path" := os_path_join dirname "static" ]})
              (path_of "/kernels/" ++ id ++ "/"%char :: action)
      = Some KernelActionHandler
    <-> re_match action_tail ("/"%char :: action) = true).
  { rewrite (dispatch_kernel_sub _ id action Hid).
    destruct (re_match action_tail _); [done |].
    by repeat (destruct (re_match (plain_route _) _)). }
  rewrite Hgoal, action_tail_cases. split; [done |]. intros Hlf.
  split; [| by intuition].
  intros [? | [? | [-> | ->]]]; [by left | by right | |];
    destruct Hlf; apply in_app_iff; right; by left.
Qed.

(** C3, as the router has it: the URL table has two stream routes, both
    for [ZMQStreamHandler], with stream names [iopub] and [shell]; for
    every kernel identifier both endpoints are served with their stream
    name, a stream handler is never given another stream name, and
    [/kernels/<id>/<name>] reaches a stream handler exactly when [<name>]
    is [iopub] or [shell], or one of the two followed by a final line
    feed; for a [<name>] without line feed, exactly when it is [iopub] or
    [shell]. *)
Theorem stream_routes (dirname : string) (app : list URLSpec)
    (id : list ascii) :
  NotebookWebApplication dirname = Some app ->
  matches_pattern _kernel_id_regex id = true ->
  List.filter
    (fun h => match h.1.2 with ZMQStreamHandler => true | _ => false end)
    handlers
  = [ (format "/kernels/%s/iopub" [_kernel_id_regex], ZMQStreamHandler,
         {[ "stream_name" := "iopub" ]});
      (format "/kernels/%s/shell" [_kernel_id_regex], ZMQStreamHandler,
         {[ "stream_name" := "shell" ]}) ]
  /\ dispatch app (path_of "/kernels/" ++ id ++ path_of "/iopub")
     = Some (ZMQStreamHandler, {[ "stream_name" := "iopub" ]})
  /\ dispatch app (path_of "/kernels/" ++ id ++ path_of "/shell")
     = Some (ZMQStreamHandler, {[ "stream_name" := "shell" ]})
  /\ (forall path kw, dispatch app path = Some (ZMQStreamHandler, kw) ->
        kw = {[ "stream_name" := "iopub" ]}
        \/ kw = {[ "stream_name" := "shell" ]})
  /\ (forall chan,
        fst <$> dispatch app (path_of "/kernels/" ++ id ++ path_of "/" ++ chan)
          = Some ZMQStreamHandler
        <-> chan = path_of "iopub" \/ chan = path_of "shell"
            \/ chan = path_of "iopub" ++ [LF]
            \/ chan = path_of "shell" ++ [LF])
  /\ (forall chan, ~ In LF chan ->
        (fst <$> dispatch app (path_of "/kernels/" ++ id ++ path_of "/" ++ chan)
           = Some ZMQStreamHandler
         <-> chan = path_of "iopub" \/ chan = path_of "shell")).
Proof.
  intros Happ Hid. rewrite NotebookWebApplication_compiled in Happ.
  injection Happ as <-. apply matches_id_pattern in Hid.
  assert (Hchan : forall chan,
    fst <$> dispatch
              (compiled_routes {[ "path" := os_path_join dirname "static" ]})
              (path_of "/kernels/" ++ id ++ path_of "/" ++ chan)
      = Some ZMQStreamHandler
    <-> chan = path_of "iopub" \/ chan = path_of "shell"
        \/ chan = path_of "iopub" ++ [LF] \/ chan = path_of "shell" ++ [LF]);
    [| split; [reflexivity |]; split; [| split; [| split; [| split]]]].
  { intros chan. change (path_of "/" ++ chan) with ("/"%char :: chan).
    rewrite (dispatch_kernel_sub _ id chan Hid).
    destruct (re_match action_tail _) eqn:Ea.
    { split; [done |].
      apply action_tail_cases in Ea.
      intros [-> | [-> | [-> | ->]]];
        destruct Ea as [Ea | [Ea | [Ea | Ea]]]; discriminate Ea. }
    destruct (re_match (plain_route "/iopub") _) eqn:Ei.
    { apply (plain_tail_cases "iopub") in Ei. by intuition. }
    destruct (re_match (plain_route "/shell") _) eqn:Es.
    { apply (plain_tail_cases "shell") in Es. by intuition. }
    split; [done |]. intros H.
    assert (Hi := proj2 (plain_tail_cases "iopub" chan)).
    assert (Hs := proj2 (plain_tail_cases "shell" chan)).
    destruct H as [-> | [-> | [-> | ->]]]; intuition congruence. }
  - change (path_of "/iopub") with ("/"%char :: path_of "iopub").
    by rewrite (dispatch_kernel_sub _ id _ Hid).
  - change (path_of "/shell") with ("/"%char :: path_of "shell").
    by rewrite (dispatch_kernel_sub _ id _ Hid).
  - intros path kw (spec & Hin & _ & Hh & Hkw)%dispatch_In.
    unfold compiled_routes in Hin. cbn [In] in Hin.
    repeat (destruct Hin as [<- | Hin]; [cbn in Hh, Hkw; try discriminate Hh; auto |]).
    done.
  - exact Hchan.
  - intros chan Hlf. rewrite Hchan. split; [| by intuition].
    intros [? | [? | [-> | ->]]]; [by left | by right | |];
      destruct Hlf; apply in_app_iff; right; by left.
Qed.

(** C4, as the pattern has it: every standard UUID string matches the
    kernel identifier pattern and is routed to [KernelHandler], but the
    pattern is wider: a segment is routed as a kernel identifier exactly
    when it is five non-empty runs of word characters separated by single
    hyphens (optionally followed by a final line feed), and the segment
    [a-b-c-d-e] is one. *)
Theorem kernel_id_pattern_shape (dirname : string) (app : list URLSpec) :
  NotebookWebApplication dirname = Some app ->
  (forall seg, is_uuid seg = true ->
     matches_pattern _kernel_id_regex seg = true
     /\ dispatch app (path_of "/kernels/" ++ seg) = Some (KernelHandler, ∅))
  /\ (forall seg, matches_pattern _kernel_id_regex seg = true
                  <-> five_words seg)
  /\ (forall seg,
        fst <$> dispatch app (path_of "/kernels/" ++ seg) = Some KernelHandler
        <-> exists id t, matches_pattern _kernel_id_regex id = true
              /\ seg = id ++ t /\ (t = [] \/ t = [LF]))
  /\ matches_pattern _kernel_id_regex (path_of "a-b-c-d-e") = true.
Proof.
  intros Happ. rewrite NotebookWebApplication_compiled in Happ.
  injection Happ as <-.
  assert (Hroute : forall seg,
            re_match (id_route "/kernels/" "kernel_id" Eol)
              (path_of "/kernels/" ++ seg) = true
            <-> exists id t, matches_pattern _kernel_id_regex id = true
                  /\ seg = id ++ t /\ (t = [] \/ t = [LF])).
  { intros seg. rewrite kernel_route_below. split.
    - intros (W & rest & HW & -> & Hend). rewrite match_Eol in Hend.
      exists W, rest. split; [by apply matches_id_pattern |].
      split; [done | by apply at_end_cases].
    - intros (id & t & Hid%matches_id_pattern & -> & Hend%at_end_cases).
      exists id, t. by rewrite match_Eol. }
  split; [| split; [| split]].
  - intros seg Huuid%is_uuid_five_words.
    split; [by apply matches_id_pattern |].
    rewrite dispatch_kernel_routes.
    assert (H : re_match (id_route "/kernels/" "kernel_id" Eol)
                  (path_of "/kernels/" ++ seg) = true).
    { apply Hroute. exists seg, []. rewrite app_nil_r.
      split; [by apply matches_id_pattern | by intuition]. }
    by rewrite H.
  - apply matches_id_pattern.
  - intros seg. rewrite <- Hroute, dispatch_kernel_routes.
    destruct (re_match (id_route _ _ Eol) _); [done |].
    by repeat (destruct (re_match (id_route _ _ _) _)).
  - reflexivity.
Qed.

(** ** Concrete requests *)

Example dispatch_restart :
  (fun app => dispatch app (path_of "/kernels/" ++ demo_uuid ++ path_of "/restart"))
    <$> NotebookWebApplication demo_dirname
  = Some (Some (KernelActionHandler, ∅)).
Proof. reflexivity. Qed.

Example dispatch_restart_newline :
  (fun app => fst <$> dispatch app
     (path_of "/kernels/" ++ demo_uuid ++ path_of "/restart" ++ [LF]))
    <$> NotebookWebApplication demo_dirname
  = Some (Some KernelActionHandler).
Proof. reflexivity. Qed.

Example dispatch_restarted :
  (fun app => dispatch app (path_of "/kernels/" ++ demo_uuid ++ path_of "/restarted"))
    <$> NotebookWebApplication demo_dirname
  = Some None.
Proof. reflexivity. Qed.

Example dispatch_short_id :
  (fun app => fst <$> dispatch app (path_of "/kernels/a-b-c-d-e"))
    <$> NotebookWebApplication demo_dirname
  = Some (Some KernelHandler).
Proof. reflexivity. Qed.

Lemma action_route_exact_witness :
  NotebookWebApplication demo_dirname
  = Some (compiled_routes {[ "path" := os_path_join demo_dirname "static" ]})
  /\ matches_pattern _kernel_id_regex demo_uuid = true
  /\ (fst <$> dispatch
                (compiled_routes {[ "path" := os_path_join demo_dirname "static" ]})
                (path_of "/kernels/" ++ demo_uuid ++ path_of "/" ++ path_of "interrupt")
        = Some KernelActionHandler
      <-> path_of "interrupt" = path_of "restart"
          \/ path_of "interrupt" = path_of "interrupt"
          \/ path_of "interrupt" = path_of "restart" ++ [LF]
          \/ path_of "interrupt" = path_of "interrupt" ++ [LF]).
Proof.
  split; [reflexivity |]. split; [reflexivity |].
  apply (action_route_exact demo_dirname _ demo_uuid (path_of "interrupt"));
    reflexivity.
Defined.

(** C2 as the specification words it fails on an action followed by a line
    feed: [/kernels/<id>/restart\n] is dispatched to the action handler. *)
Lemma action_route_counterexample :
  ~ (forall dirname app id action,
       NotebookWebApplication dirname = Some app ->
       matches_pattern _kernel_id_regex id = true ->
       (fst <$> dispatch app (path_of "/kernels/" ++ id ++ path_of "/" ++ action)
          = Some KernelActionHandler
        <-> action = path_of "restart" \/ action = path_of "interrupt")).
Proof.
  intros H.
  specialize (H demo_dirname _ demo_uuid (path_of "restart" ++ [LF])
                eq_refl eq_refl).
  destruct H as [H _]. destruct (H eq_refl) as [? | ?]; discriminate.
Qed.

Lemma stream_routes_witness :
  NotebookWebApplication demo_dirname
  = Some (compiled_routes {[ "path" := os_path_join demo_dirname "static" ]})
  /\ matches_pattern _kernel_id_regex demo_uuid = true
  /\ dispatch (compiled_routes {[ "path" := os_path_join demo_dirname "static" ]})
       (path_of "/kernels/" ++ demo_uuid ++ path_of "/iopub")
     = Some (ZMQStreamHandler, {[ "stream_name" := "iopub" ]}).
Proof.
  split; [reflexivity |]. split; [reflexivity |].
  apply (stream_routes demo_dirname _ demo_uuid); reflexivity.
Defined.

(** C3 as the specification words it fails on a channel name followed by a
    line feed: [/kernels/<id>/iopub\n] reaches the stream handler. *)
Lemma stream_routes_counterexample :
  ~ (forall dirname app id chan,
       NotebookWebApplication dirname = Some app ->
       matches_pattern _kernel_id_regex id = true ->
       (fst <$> dispatch app (path_of "/kernels/" ++ id ++ path_of "/" ++ chan)
          = Some ZMQStreamHandler
        <-> chan = path_of "iopub" \/ chan = path_of "shell")).
Proof.
  intros H.
  specialize (H demo_dirname _ demo_uuid (path_of "iopub" ++ [LF])
                eq_refl eq_refl).
  destruct H as [H _]. destruct (H eq_refl) as [? | ?]; discriminate.
Qed.

Lemma kernel_id_pattern_shape_witness :
  NotebookWebApplication demo_dirname
  = Some (compiled_routes {[ "path" := os_path_join demo_dirname "static" ]})
  /\ (is_uuid demo_uuid = true ->
      matches_pattern _kernel_id_regex demo_uuid = true
      /\ dispatch (compiled_routes {[ "path" := os_path_join demo_dirname "static" ]})
           (path_of "/kernels/" ++ demo_uuid) = Some (KernelHandler, ∅)).
Proof.
  split; [reflexivity |].
  apply (kernel_id_pattern_shape demo_dirname _ eq_refl).
Defined.

(** C4 as the specification words it fails: [a-b-c-d-e] is not a UUID and
    is routed as a kernel identifier. *)
Lemma kernel_id_pattern_counterexample :
  ~ (forall dirname app seg,
       NotebookWebApplication dirname = Some app ->
       (fst <$> dispatch app (path_of "/kernels/" ++ seg) = Some KernelHandler
        <-> is_uuid seg = true)).
Proof.
  intros H.
  specialize (H demo_dirname _ (path_of "a-b-c-d-e") eq_refl).
  destruct H as [H _]. discriminate (H eq_refl).
Qed.

(** ** Single-flight creation of kernels *)

Module SingleFlight.
Import RoutingTable.

Lemma lookup_set_caller (i j : nat) (nb : string) (p : pc) (s : state)
    (c : string * pc) :
  callers s !! i = Some c ->
  callers (set_caller i nb p s) !! j
  = if decide (i = j) then Some (nb, p) else callers s !! j.
Proof.
  intros Hi. cbn. destruct (decide (i = j)) as [<- | Hne].
  - apply list_lookup_insert_eq. by eapply lookup_lt_Some.
  - by apply list_lookup_insert_ne.
Qed.

Lemma callers_fst_insert (i : nat) (nb : string) (p p' : pc)
    (l : list (string * pc)) :
  l !! i = Some (nb, p) -> (<[ i := (nb, p') ]> l).*1 = l.*1.
Proof.
  intros Hi. rewrite list_fmap_insert. cbn.
  apply list_insert_id. by rewrite list_lookup_fmap, Hi.
Qed.

Lemma starts_for_app (nb : string) (s : state) (e : string * nat)
    (l : list (string * nat)) :
  starts s = l ++ [e] ->
  starts_for nb s
  = (snd <$> List.filter (fun e => String.eqb e.1 nb) l)
    ++ (if String.eqb e.1 nb then [e.2] else []).
Proof.
  intros Hs. unfold starts_for. rewrite Hs, List.filter_app, fmap_app. cbn.
  by destruct (String.eqb e.1 nb).
Qed.

Lemma init_waiting (nbs : list string) (i : nat) (nb : string) (p : pc) :
  callers (init nbs) !! i = Some (nb, p) -> p = Waiting.
Proof. cbn. by intros (? & [= _ ->] & _)%list_lookup_fmap_Some. Qed.

Lemma inv_init (nbs : list string) : inv nbs (init nbs).
Proof.
  split.
  - cbn. rewrite <- list_fmap_compose. apply list_fmap_id.
  - by intros i nb p ->%init_waiting.
  - intros nb i Hl. cbn in Hl. by rewrite lookup_empty in Hl.
  - by intros i nb p ->%init_waiting [| []].
  - by intros i nb p k ->%init_waiting [|].
  - intros nb k Hr. cbn in Hr. by rewrite lookup_empty in Hr.
  - by intros i nb k ?%init_waiting.
  - intros nb _. by left.
  - by intros i nb p ->%init_waiting [|].
  - done.
Qed.

Lemma starts_for_ext (nb : string) (s s' : state) :
  starts s' = starts s -> starts_for nb s' = starts_for nb s.
Proof. unfold starts_for. by intros ->. Qed.

(** Reading a caller after caller [i] moved. *)
Ltac caller_at Hi H :=
  rewrite (lookup_set_caller _ _ _ _ _ _ Hi) in H;
  let E := fresh "E" in
  destruct (decide (_ = _)) as [E | E] in H;
  [ simplify_eq | cbn in H ].

Ltac same_caller Hi :=
  rewrite (lookup_set_caller _ _ _ _ _ _ Hi);
  let E := fresh "E" in
  destruct (decide (_ = _)) as [E | E]; [try subst | ].

(** Two callers inside the section of one notebook are the same
    caller. *)
Lemma owner_unique (nbs : list string) (s : state) (i j : nat)
    (nb : string) (p q : pc) :
  inv nbs s ->
  callers s !! i = Some (nb, p) -> critical p = true ->
  callers s !! j = Some (nb, q) -> critical q = true ->
  i = j /\ p = q.
Proof.
  intros Hinv Hi Hp Hj Hq.
  pose proof (inv_owner _ _ Hinv _ _ _ Hi Hp) as H1.
  pose proof (inv_owner _ _ Hinv _ _ _ Hj Hq) as H2.
  assert (i = j) as <- by congruence. split; [done | congruence].
Qed.

(** Entering the exclusive section. *)
Lemma inv_enter (nbs : list string) (i : nat) (nb : string) (s : state) :
  inv nbs s ->
  callers s !! i = Some (nb, Waiting) ->
  locks s !! nb = None ->
  inv nbs (set_caller i nb Holding (set_locks (<[ nb := i ]> (locks s)) s)).
Proof.
  intros [Hc Ho Hl Hu Hk Hr Hb Hn Hf Hv] Hi Hfree.
  assert (Hi' : callers (set_locks (<[ nb := i ]> (locks s)) s) !! i
                = Some (nb, Waiting)) by done.
  split.
  - cbn. rewrite <- Hc. by eapply callers_fst_insert.
  - intros j nb' p' Hj Hp. caller_at Hi' Hj.
    + cbn. by rewrite lookup_insert_eq.
    + cbn. pose proof (Ho _ _ _ Hj Hp) as Hlock.
      rewrite lookup_insert_ne; [done | congruence].
  - intros nb' j Hlock. cbn in Hlock.
    destruct (decide (nb = nb')) as [<- | Hne].
    + rewrite lookup_insert_eq in Hlock. injection Hlock as <-.
      exists Holding. by same_caller Hi'.
    + rewrite lookup_insert_ne in Hlock by done.
      destruct (Hl _ _ Hlock) as (p & Hp & Hcrit). exists p.
      same_caller Hi'; [| done]. cbn in Hp. rewrite Hi in Hp.
      injection Hp as <- <-. done.
  - intros j nb' p' Hj Hp. caller_at Hi' Hj; [by destruct Hp as [| []] |].
    cbn. by eapply Hu.
  - intros j nb' p' k Hj Hp. caller_at Hi' Hj; [by destruct Hp |].
    cbn. by eapply Hk.
  - intros nb' k Hrt. cbn in Hrt. rewrite <- (Hr _ _ Hrt). by apply starts_for_ext.
  - intros j nb' k Hj. caller_at Hi' Hj. rewrite <- (Hb _ _ _ Hj).
    by apply starts_for_ext.
  - intros nb' Hrt. cbn in Hrt.
    rewrite (starts_for_ext nb' s) by done.
    destruct (Hn _ Hrt) as [? | (j & k & Hj)]; [by left |].
    right. exists j, k. same_caller Hi'; [| done]. congruence.
  - intros j nb' p' Hj Hp. caller_at Hi' Hj; [by destruct Hp |].
    cbn. by eapply Hf.
  - done.
Qed.

(** A step inside the exclusive section that changes nothing but where
    the caller is. *)
Lemma inv_move (nbs : list string) (i : nat) (nb : string) (p p' : pc)
    (s : state) :
  inv nbs s ->
  callers s !! i = Some (nb, p) ->
  critical p = true -> critical p' = true ->
  (forall k, p <> Binding k) ->
  (p' = Launching -> routing s !! nb = None) ->
  (forall k, p' <> Binding k) ->
  (forall k, p' = Leaving k -> routing s !! nb = Some k) ->
  (p' = Failing -> nb ∈ failures s) ->
  inv nbs (set_caller i nb p' s).
Proof.
  intros Hinv Hi Hp Hp' Hnb Hlaunch Hnb' Hleave Hfail.
  pose proof Hinv as [Hc Ho Hl Hu Hk Hr Hb Hn Hf Hv].
  split.
  - cbn. rewrite <- Hc. by eapply callers_fst_insert.
  - intros j nb' q Hj Hq. caller_at Hi Hj; cbn; by eauto.
  - intros nb' j Hlock. cbn in Hlock.
    destruct (Hl _ _ Hlock) as (q & Hq & Hcrit).
    same_caller Hi; [| by exists q].
    exists p'. split; [| done]. congruence.
  - intros j nb' q Hj Hq. caller_at Hi Hj; cbn; [| by eauto].
    destruct Hq as [-> | [k ->]]; [by auto | by destruct (Hnb' k)].
  - intros j nb' q k Hj Hq. caller_at Hi Hj; cbn; [| by eauto].
    destruct Hq as [-> | ->]; [by auto | done].
  - intros nb' k Hrt. cbn in Hrt. rewrite <- (Hr _ _ Hrt). by apply starts_for_ext.
  - intros j nb' k Hj. caller_at Hi Hj; [by destruct (Hnb' k) |].
    rewrite <- (Hb _ _ _ Hj). by apply starts_for_ext.
  - intros nb' Hrt. cbn in Hrt.
    rewrite (starts_for_ext nb' s) by done.
    destruct (Hn _ Hrt) as [? | (j & k & Hj)]; [by left |].
    right. exists j, k. same_caller Hi; [| done].
    rewrite Hi in Hj. injection Hj as _ ->. by destruct (Hnb k).
  - intros j nb' q Hj Hq. caller_at Hi Hj; cbn; [| by eauto].
    destruct Hq as [-> | ->]; [by auto | done].
  - done.
Qed.

(** A failed launch registers nothing. *)
Lemma inv_start_failed (nbs : list string) (nb : string) (s : state) :
  inv nbs s -> inv nbs (registry_start_failed nb s).
Proof.
  intros [Hc Ho Hl Hu Hk Hr Hb Hn Hf Hv].
  split; try done. intros i nb' p Hi Hp. cbn.
  apply elem_of_app. left. by eapply Hf.
Qed.

(** A launch that succeeds, by the caller inside the section. *)
Lemma inv_launch (nbs : list string) (i : nat) (nb : string) (s : state) :
  inv nbs s ->
  callers s !! i = Some (nb, Launching) ->
  inv nbs (set_caller i nb (Binding (next_id s)) (registry_start nb s).2).
Proof.
  intros Hinv Hi. pose proof Hinv as [Hc Ho Hl Hu Hk Hr Hb Hn Hf Hv].
  set (s1 := (registry_start nb s).2).
  assert (Hi' : callers s1 !! i = Some (nb, Launching)) by done.
  assert (Hnone : routing s !! nb = None) by (eapply Hu; eauto).
  assert (Hfresh : starts_for nb s = []).
  { destruct (Hn _ Hnone) as [? | (j & k & Hj)]; [done |].
    by destruct (owner_unique _ _ _ _ _ _ _ Hinv Hi eq_refl Hj eq_refl). }
  assert (Hstarts : forall nb',
            starts_for nb' (set_caller i nb (Binding (next_id s)) s1)
            = starts_for nb' s ++ (if String.eqb nb nb' then [next_id s] else [])).
  { intros nb'.
    by apply (starts_for_app nb' (set_caller i nb (Binding (next_id s)) s1)
                (nb, next_id s) (starts s)). }
  split.
  - cbn. rewrite <- Hc. by eapply callers_fst_insert.
  - intros j nb' q Hj Hq. caller_at Hi' Hj; cbn; by eauto.
  - intros nb' j Hlock. cbn in Hlock.
    destruct (Hl _ _ Hlock) as (q & Hq & Hcrit).
    same_caller Hi'; [| by exists q].
    exists (Binding (next_id s)). split; [| done]. congruence.
  - intros j nb' q Hj Hq. caller_at Hi' Hj; cbn; by eauto.
  - intros j nb' q k Hj Hq. caller_at Hi' Hj; cbn; [by destruct Hq | by eauto].
  - intros nb' k Hrt. cbn in Hrt. rewrite Hstarts, (Hr _ _ Hrt).
    destruct (String.eqb_spec nb nb') as [<- | ?]; [congruence |].
    by rewrite app_nil_r.
  - intros j nb' k Hj. rewrite Hstarts. caller_at Hi' Hj.
    + by rewrite Hfresh, String.eqb_refl.
    + rewrite (Hb _ _ _ Hj).
      destruct (String.eqb_spec nb nb') as [<- | ?]; [| by rewrite app_nil_r].
      by destruct (owner_unique _ _ _ _ _ _ _ Hinv Hi eq_refl Hj eq_refl).
  - intros nb' Hrt. cbn in Hrt. rewrite Hstarts.
    destruct (String.eqb_spec nb nb') as [<- | Hne].
    + right. exists i, (next_id s). by same_caller Hi'.
    + rewrite app_nil_r.
      destruct (Hn _ Hrt) as [? | (j & k & Hj)]; [by left |].
      right. exists j, k. same_caller Hi'; [congruence | done].
  - intros j nb' q Hj Hq. caller_at Hi' Hj; cbn; [by destruct Hq | by eauto].
  - cbn. rewrite fmap_app, list_to_set_app_L, Hv. cbn.
    by rewrite (right_id_L ∅ (∪)), (comm_L (∪)).
Qed.

(** Writing the routing entry. *)
Lemma inv_bind (nbs : list string) (i : nat) (nb : string) (k : nat)
    (s : state) :
  inv nbs s ->
  callers s !! i = Some (nb, Binding k) ->
  inv nbs (set_caller i nb (Leaving k)
             (set_routing (<[ nb := k ]> (routing s)) s)).
Proof.
  intros Hinv Hi. pose proof Hinv as [Hc Ho Hl Hu Hk Hr Hb Hn Hf Hv].
  set (s1 := set_routing (<[ nb := k ]> (routing s)) s).
  assert (Hi' : callers s1 !! i = Some (nb, Binding k)) by done.
  assert (Hnone : routing s !! nb = None) by (eapply Hu; eauto).
  assert (Hother : forall j nb' q, callers s !! j = Some (nb', q) ->
            critical q = true -> i <> j -> nb <> nb').
  { intros j nb' q Hj Hq Hne <-.
    by destruct (owner_unique _ _ _ _ _ _ _ Hinv Hi eq_refl Hj Hq). }
  split.
  - cbn. rewrite <- Hc. by eapply callers_fst_insert.
  - intros j nb' q Hj Hq. caller_at Hi' Hj; cbn; by eauto.
  - intros nb' j Hlock. cbn in Hlock.
    destruct (Hl _ _ Hlock) as (q & Hq & Hcrit).
    same_caller Hi'; [| by exists q].
    exists (Leaving k). split; [| done]. congruence.
  - intros j nb' q Hj Hq. caller_at Hi' Hj; cbn; [by destruct Hq as [| []] |].
    rewrite lookup_insert_ne; [by eauto |].
    eapply Hother; [done | | done]. by destruct Hq as [-> | [? ->]].
  - intros j nb' q k' Hj Hq. caller_at Hi' Hj; cbn.
    + rewrite lookup_insert_eq. by destruct Hq as [[= ->] |].
    + rewrite lookup_insert_ne; [by eauto |].
      intros <-. rewrite (Hk _ _ _ _ Hj Hq) in Hnone. done.
  - intros nb' k' Hrt. cbn in Hrt.
    rewrite (starts_for_ext nb' s) by done.
    destruct (decide (nb = nb')) as [<- | Hne].
    + rewrite lookup_insert_eq in Hrt. injection Hrt as <-. by eapply Hb.
    + rewrite lookup_insert_ne in Hrt by done. by apply Hr.
  - intros j nb' k' Hj. caller_at Hi' Hj.
    rewrite <- (Hb _ _ _ Hj). by apply starts_for_ext.
  - intros nb' Hrt. cbn in Hrt.
    rewrite (starts_for_ext nb' s) by done.
    destruct (decide (nb = nb')) as [<- | Hne];
      [by rewrite lookup_insert_eq in Hrt |].
    rewrite lookup_insert_ne in Hrt by done.
    destruct (Hn _ Hrt) as [? | (j & k' & Hj)]; [by left |].
    right. exists j, k'. same_caller Hi'; [congruence | done].
  - intros j nb' q Hj Hq. caller_at Hi' Hj; cbn; [by destruct Hq | by eauto].
  - done.
Qed.

(** Leaving the exclusive section, with an identity or with the error. *)
Lemma inv_leave (nbs : list string) (i : nat) (nb : string) (p p' : pc)
    (s : state) :
  inv nbs s ->
  callers s !! i = Some (nb, p) ->
  (exists k, p = Leaving k /\ p' = Returned k) \/ (p = Failing /\ p' = Raised) ->
  inv nbs (set_caller i nb p' (set_locks (delete nb (locks s)) s)).
Proof.
  intros Hinv Hi Hpp'. pose proof Hinv as [Hc Ho Hl Hu Hk Hr Hb Hn Hf Hv].
  set (s1 := set_locks (delete nb (locks s)) s).
  assert (Hi' : callers s1 !! i = Some (nb, p)) by done.
  assert (Hp : critical p = true) by (by destruct Hpp' as [(? & -> & _) | [-> _]]).
  assert (Hp' : critical p' = false) by (by destruct Hpp' as [(? & _ & ->) | [_ ->]]).
  assert (Hother : forall j nb' q, callers s !! j = Some (nb', q) ->
            critical q = true -> i <> j -> nb <> nb').
  { intros j nb' q Hj Hq Hne <-.
    by destruct (owner_unique _ _ _ _ _ _ _ Hinv Hi Hp Hj Hq). }
  split.
  - cbn. rewrite <- Hc. by eapply callers_fst_insert.
  - intros j nb' q Hj Hq. caller_at Hi' Hj; cbn; [congruence |].
    rewrite lookup_delete_ne; by eauto.
  - intros nb' j Hlock. cbn in Hlock.
    destruct (decide (nb = nb')) as [<- | Hne];
      [by rewrite lookup_delete_eq in Hlock |].
    rewrite lookup_delete_ne in Hlock by done.
    destruct (Hl _ _ Hlock) as (q & Hq & Hcrit).
    same_caller Hi'; [congruence | by exists q].
  - intros j nb' q Hj Hq. caller_at Hi' Hj; cbn; [| by eauto].
    destruct Hq as [-> | [? ->]]; done.
  - intros j nb' q k Hj Hq. caller_at Hi' Hj; cbn; [| by eauto].
    destruct Hpp' as [(k' & -> & ->) | [-> ->]]; [| by destruct Hq].
    eapply Hk; [done |]. left. destruct Hq as [? | ?]; congruence.
  - intros nb' k Hrt. cbn in Hrt. rewrite <- (Hr _ _ Hrt). by apply starts_for_ext.
  - intros j nb' k Hj. caller_at Hi' Hj.
    rewrite <- (Hb _ _ _ Hj). by apply starts_for_ext.
  - intros nb' Hrt. cbn in Hrt.
    rewrite (starts_for_ext nb' s) by done.
    destruct (Hn _ Hrt) as [? | (j & k & Hj)]; [by left |].
    right. exists j, k. same_caller Hi'; [| done].
    rewrite Hi in Hj. injection Hj as _ ->.
    by destruct Hpp' as [(? & ? & _) | [? _]].
  - intros j nb' q Hj Hq. caller_at Hi' Hj; cbn; [| by eauto].
    destruct Hpp' as [(k' & -> & ->) | [-> ->]]; [by destruct Hq |].
    eapply Hf; [done | by left].
  - done.
Qed.

(** Every step preserves the invariant. *)
Lemma inv_step (nbs : list string) (i : nat) (ok : bool) (s s' : state) :
  inv nbs s -> step i ok s = Some s' -> inv nbs s'.
Proof.
  intros Hinv. unfold step.
  destruct (callers s !! i) as [[nb p] |] eqn:Hi; [cbn | done].
  destruct p as [| | | k | k | | k |].
  - destruct (locks s !! nb) eqn:Hlock; [done |]. intros [= <-].
    by apply inv_enter.
  - destruct (routing s !! nb) as [k |] eqn:Hrt; intros [= <-].
    + apply (inv_move nbs i nb Holding); try done. by intros k' [= ->].
    + by apply (inv_move nbs i nb Holding).
  - destruct ok; intros [= <-].
    + by apply inv_launch.
    + apply (inv_move nbs i nb Launching); try done.
      * by apply inv_start_failed.
      * intros _. cbn. apply elem_of_app. right. by apply list_elem_of_singleton.
  - intros [= <-]. by apply inv_bind.
  - intros [= <-]. apply (inv_leave nbs i nb (Leaving k)); [done | done |].
    left. by exists k.
  - intros [= <-]. apply (inv_leave nbs i nb Failing); [done | done |].
    by right.
  - done.
  - done.
Qed.

Lemma inv_exec (nbs : list string) (schedule : list (nat * bool))
    (s s' : state) :
  inv nbs s -> exec schedule s = Some s' -> inv nbs s'.
Proof.
  revert s. induction schedule as [| [i ok] rest IH]; intros s Hinv; cbn.
  - by intros [= <-].
  - destruct (step i ok s) as [s1 |] eqn:Hstep; [cbn | done].
    apply IH. by eapply inv_step.
Qed.

(** ** Every call comes to an end *)

Lemma sum_list_with_insert {A} (f : A -> nat) (l : list A) (i : nat) (x y : A) :
  l !! i = Some x ->
  (sum_list_with f (<[ i := y ]> l) + f x = sum_list_with f l + f y)%nat.
Proof.
  revert i. induction l as [| a l IH]; intros [| i] Hi; cbn in *; try done.
  - injection Hi as ->.
    generalize (f y) (f x) (sum_list_with f l). intros; lia.
  - rewrite <- !Nat.add_assoc. f_equal. exact (IH i Hi).
Qed.

Lemma step_callers (i : nat) (ok : bool) (s s' : state) :
  step i ok s = Some s' ->
  exists nb p p', callers s !! i = Some (nb, p)
    /\ callers s' = <[ i := (nb, p') ]> (callers s)
    /\ (remaining p' < remaining p)%nat.
Proof.
  unfold step. destruct (callers s !! i) as [[nb p] |] eqn:Hi; [cbn | done].
  intros Hs. exists nb, p.
  destruct p as [| | | k | k | | k |]; try done.
  - destruct (locks s !! nb); [done |]. injection Hs as <-.
    exists Holding. cbn. repeat split; lia.
  - destruct (routing s !! nb) as [k |]; injection Hs as <-.
    + exists (Leaving k). cbn. repeat split; lia.
    + exists Launching. cbn. repeat split; lia.
  - destruct ok; injection Hs as <-.
    + exists (Binding (next_id s)). cbn. repeat split; lia.
    + exists Failing. cbn. repeat split; lia.
  - injection Hs as <-. exists (Leaving k). cbn. repeat split; lia.
  - injection Hs as <-. exists (Returned k). cbn. repeat split; lia.
  - injection Hs as <-. exists Raised. cbn. repeat split; lia.
Qed.

Lemma step_budget (i : nat) (ok : bool) (s s' : state) :
  step i ok s = Some s' -> (S (budget s') <= budget s)%nat.
Proof.
  intros (nb & p & p' & Hi & Hc & Hlt)%step_callers.
  unfold budget. rewrite Hc.
  pose proof (sum_list_with_insert (fun c => remaining c.2) _ _ _ (nb, p') Hi) as H.
  cbn in H. lia.
Qed.

Lemma exec_budget (schedule : list (nat * bool)) (s s' : state) :
  exec schedule s = Some s' ->
  (length schedule + budget s' <= budget s)%nat.
Proof.
  revert s. induction schedule as [| [i ok] rest IH]; intros s; cbn.
  - intros [= <-]. lia.
  - destruct (step i ok s) as [s1 |] eqn:Hstep; [cbn | done].
    intros H1%IH. pose proof (step_budget _ _ _ _ Hstep). lia.
Qed.

Lemma budget_init (nbs : list string) : budget (init nbs) = (5 * length nbs)%nat.
Proof.
  unfold budget. cbn. induction nbs as [| nb nbs IH]; cbn in *; [done | lia].
Qed.

(** ** No interleaving gets stuck *)

Lemma critical_steps (i : nat) (nb : string) (p : pc) (s : state) :
  callers s !! i = Some (nb, p) -> critical p = true ->
  exists s', step i true s = Some s'.
Proof.
  intros Hi Hp. unfold step. rewrite Hi. cbn.
  destruct p; try done; try by eexists.
  destruct (routing s !! nb); by eexists.
Qed.

Lemma unfinished_caller (s : state) :
  all_finished s = false ->
  exists i nb p, callers s !! i = Some (nb, p) /\ finished p = false.
Proof.
  unfold all_finished. induction (callers s) as [| [nb p] l IH]; cbn; [done |].
  destruct (finished p) eqn:Hp; cbn.
  - intros (i & nb' & p' & Hi & Hp')%IH. by exists (S i), nb', p'.
  - intros _. by exists 0%nat, nb, p.
Qed.

Lemma progress (nbs : list string) (s : state) :
  inv nbs s -> all_finished s = false ->
  exists i ok s', step i ok s = Some s'.
Proof.
  intros Hinv (i & nb & p & Hi & Hp)%unfinished_caller.
  destruct (critical p) eqn:Hc.
  { destruct (critical_steps _ _ _ _ Hi Hc) as [s' Hs]. by exists i, true, s'. }
  destruct p; try done.
  destruct (locks s !! nb) as [j |] eqn:Hlock.
  - destruct (inv_lock _ _ Hinv _ _ Hlock) as (q & Hj & Hq).
    destruct (critical_steps _ _ _ _ Hj Hq) as [s' Hs]. by exists j, true, s'.
  - exists i, true. unfold step. rewrite Hi. cbn. rewrite Hlock. by eexists.
Qed.

Lemma starts_for_live (nbs : list string) (s : state) (nb : string) (k : nat) :
  inv nbs s -> k ∈ starts_for nb s -> k ∈ live s.
Proof.
  intros Hinv Hk. rewrite (inv_live _ _ Hinv). apply elem_of_list_to_set.
  unfold starts_for in Hk.
  apply list_elem_of_fmap in Hk as (e & -> & He).
  apply list_elem_of_In, List.filter_In in He as [He _].
  apply list_elem_of_fmap. exists e. split; [done |]. by apply list_elem_of_In.
Qed.

Lemma starts_for_at_most_one (nbs : list string) (s : state) (nb : string) :
  inv nbs s -> (length (starts_for nb s) <= 1)%nat.
Proof.
  intros Hinv. destruct (routing s !! nb) as [k |] eqn:Hrt.
  - by rewrite (inv_routed _ _ Hinv _ _ Hrt).
  - destruct (inv_unrouted _ _ Hinv _ Hrt) as [-> | (i & k & Hi)]; [cbn; lia |].
    by rewrite (inv_binding _ _ Hinv _ _ _ Hi).
Qed.

Lemma finished_caller (s : state) (i : nat) (nb : string) (p : pc) :
  all_finished s = true -> callers s !! i = Some (nb, p) -> finished p = true.
Proof.
  unfold all_finished. rewrite forallb_forall. intros Hall Hi.
  apply (Hall (nb, p)). apply list_elem_of_In. by eapply list_elem_of_lookup_2.
Qed.

Lemma failures_for_nil (nb : string) (s : state) :
  nb ∉ failures s -> failures_for nb s = [].
Proof.
  unfold failures_for. induction (failures s) as [| x l IH]; [done |].
  intros Hn. cbn. destruct (String.eqb_spec nb x) as [-> | Hne].
  - destruct Hn. apply list_elem_of_here.
  - apply IH. intros Hin. apply Hn. by apply list_elem_of_further.
Qed.

(** What a call that is over has done: it returned the identity of the
    one kernel started for its notebook, or its own launch failed. *)
Lemma finished_call (nbs : list string) (s : state) (i : nat) (nb : string) :
  inv nbs s -> all_finished s = true -> nbs !! i = Some nb ->
  (exists k, callers s !! i = Some (nb, Returned k)
     /\ starts_for nb s = [k] /\ k ∈ live s /\ routing s !! nb = Some k)
  \/ (callers s !! i = Some (nb, Raised) /\ nb ∈ failures s).
Proof.
  intros Hinv Hall Hi.
  assert (Hc : (callers s).*1 !! i = Some nb)
    by (by rewrite (inv_callers _ _ Hinv)).
  apply list_lookup_fmap_Some in Hc as ([nb' p] & [= <-] & Hc).
  pose proof (finished_caller _ _ _ _ Hall Hc) as Hfin.
  destruct p as [| | | | | | k |]; try done.
  - left. exists k.
    assert (Hrt : routing s !! nb = Some k)
      by (eapply (inv_known _ _ Hinv); eauto).
    pose proof (inv_routed _ _ Hinv _ _ Hrt) as Hs.
    split; [done |]. split; [done |]. split; [| done].
    eapply starts_for_live; [done |]. rewrite Hs. by left.
  - right. split; [done |]. eapply (inv_failed _ _ Hinv); eauto.
Qed.

(** C6 (spec-modelled), as the routing table has it: in every
    interleaving of concurrent [resolve] calls on a fresh routing table,
    the calls for one notebook that have returned all returned the same
    kernel identity, and at most one kernel was ever registered for the
    notebook.  Once every call is over, each call for the notebook has
    returned the identity of that kernel, or has raised [LaunchError]
    because a launch for the notebook failed.  When no launch for the
    notebook failed, all the calls for it returned the same identity and
    [KernelRegistry.start] was invoked exactly once for it.  No
    interleaving gets stuck before every call is over, and with N calls
    none is longer than 5N steps. *)
Theorem single_flight (nbs : list string) (schedule : list (nat * bool))
    (s : state) (nb : string) :
  exec schedule (init nbs) = Some s ->
  (forall i j k k',
     callers s !! i = Some (nb, Returned k) ->
     callers s !! j = Some (nb, Returned k') -> k = k')
  /\ (length (starts_for nb s) <= 1)%nat
  /\ (all_finished s = true ->
      forall i, nbs !! i = Some nb ->
        (exists k, callers s !! i = Some (nb, Returned k)
           /\ starts_for nb s = [k] /\ k ∈ live s
           /\ routing s !! nb = Some k)
        \/ (callers s !! i = Some (nb, Raised) /\ nb ∈ failures s))
  /\ (all_finished s = true -> nb ∈ nbs -> nb ∉ failures s ->
      exists k, start_invocations nb s = 1%nat
        /\ starts_for nb s = [k] /\ k ∈ live s
        /\ routing s !! nb = Some k
        /\ forall i, nbs !! i = Some nb ->
                     callers s !! i = Some (nb, Returned k))
  /\ (all_finished s = false -> exists i ok s', step i ok s = Some s')
  /\ (length schedule + budget s <= 5 * length nbs)%nat.
Proof.
  intros Hexec.
  pose proof (inv_exec nbs _ _ _ (inv_init nbs) Hexec) as Hinv.
  split; [| split; [| split; [| split; [| split]]]].
  - intros i j k k' Hi Hj.
    pose proof (inv_known _ _ Hinv _ _ _ k Hi (or_intror eq_refl)) as H1.
    pose proof (inv_known _ _ Hinv _ _ _ k' Hj (or_intror eq_refl)) as H2.
    congruence.
  - by eapply starts_for_at_most_one.
  - intros Hall i Hi. by eapply finished_call.
  - intros Hall (i0 & Hi0)%list_elem_of_lookup_1 Hnf.
    destruct (finished_call nbs s i0 nb Hinv Hall Hi0)
      as [(k & Hk & Hs & Hlive & Hrt) | [_ Hf]]; [| done].
    exists k. split.
    { unfold start_invocations. by rewrite Hs, failures_for_nil. }
    split; [done |]. split; [done |]. split; [done |].
    intros i Hi.
    destruct (finished_call nbs s i nb Hinv Hall Hi)
      as [(k' & Hk' & _ & _ & Hrt') | [_ Hf]]; [| done].
    congruence.
  - by eapply progress.
  - pose proof (exec_budget _ _ _ Hexec) as H.
    by rewrite budget_init in H.
Qed.

(** Two concurrent calls for [nbA] interleaved with a call for [nbB]: one
    kernel each, and both calls for [nbA] return kernel 0. *)
Example demo_run :
  (fun s => (callers s, starts s, failures s))
    <$> exec demo_schedule (init demo_calls)
  = Some ([("nbA", Returned 0); ("nbA", Returned 0); ("nbB", Returned 1)],
          [("nbA", 0%nat); ("nbB", 1%nat)], []).
Proof. vm_compute. reflexivity. Qed.

(** A caller cannot enter a section that is taken. *)
Example demo_blocked :
  exec [(0, true); (1, true)]%nat (init demo_calls) = None.
Proof. vm_compute. reflexivity. Qed.

(** A launch that fails: the first call raises [LaunchError], the second
    starts the kernel, and [KernelRegistry.start] has been invoked
    twice. *)
Example failing_run :
  (fun s => (callers s, starts s, failures s, start_invocations "nbA" s))
    <$> exec failing_schedule (init ["nbA"; "nbA"])
  = Some ([("nbA", Raised); ("nbA", Returned 0)], [("nbA", 0%nat)], ["nbA"],
          2%nat).
Proof. vm_compute. reflexivity. Qed.

Lemma single_flight_witness :
  exists s, exec demo_schedule (init demo_calls) = Some s
    /\ (forall i j k k',
          callers s !! i = Some ("nbA", Returned k) ->
          callers s !! j = Some ("nbA", Returned k') -> k = k')
    /\ (length (starts_for "nbA" s) <= 1)%nat
    /\ (all_finished s = true ->
        forall i, demo_calls !! i = Some "nbA" ->
          (exists k, callers s !! i = Some ("nbA", Returned k)
             /\ starts_for "nbA" s = [k] /\ k ∈ live s
             /\ routing s !! "nbA" = Some k)
          \/ (callers s !! i = Some ("nbA", Raised) /\ "nbA" ∈ failures s))
    /\ (all_finished s = true -> "nbA" ∈ demo_calls -> "nbA" ∉ failures s ->
        exists k, start_invocations "nbA" s = 1%nat
          /\ starts_for "nbA" s = [k] /\ k ∈ live s
          /\ routing s !! "nbA" = Some k
          /\ forall i, demo_calls !! i = Some "nbA" ->
                       callers s !! i = Some ("nbA", Returned k))
    /\ (all_finished s = false -> exists i ok s', step i ok s = Some s')
    /\ (length demo_schedule + budget s <= 5 * length demo_calls)%nat.
Proof.
  destruct (exec demo_schedule (init demo_calls)) as [s |] eqn:E.
  - exists s. split; [reflexivity |].
    exact (single_flight demo_calls demo_schedule s "nbA" E).
  - vm_compute in E. discriminate E.
Defined.

(** C6 as the specification words it fails when a launch fails: of two
    concurrent calls for [nbA], the one whose launch fails raises
    [LaunchError] and the other starts a kernel, so the calls do not all
    return the same identity and [KernelRegistry.start] is invoked
    twice. *)
Lemma single_flight_counterexample :
  ~ (forall nbs schedule s nb,
       exec schedule (init nbs) = Some s ->
       all_finished s = true -> nb ∈ nbs ->
       exists k, start_invocations nb s = 1%nat
         /\ forall i, nbs !! i = Some nb ->
                      callers s !! i = Some (nb, Returned k)).
Proof.
  intros H.
  destruct (exec failing_schedule (init ["nbA"; "nbA"])) as [s |] eqn:E;
    [| vm_compute in E; discriminate E].
  assert (Hc : callers <$> exec failing_schedule (init ["nbA"; "nbA"])
               = Some [("nbA", Raised); ("nbA", Returned 0)])
    by (vm_compute; reflexivity).
  rewrite E in Hc. injection Hc as Hc.
  destruct (H ["nbA"; "nbA"] failing_schedule s "nbA" E) as (k & _ & Hk).
  - unfold all_finished. by rewrite Hc.
  - apply list_elem_of_here.
  - specialize (Hk 0%nat eq_refl). rewrite Hc in Hk. discriminate Hk.
Qed.
End SingleFlight.

(** ** Bridges never outlive their kernel's identity *)

Module BridgeLifecycle.
Import Bridges.


(** ** The observers of a kernel *)



(** ** What the operations do to the parts of the state *)















(** ** The invariant *)














(** ** What one event can do *)





(** ** Sequences of events *)









(** ** Closing client connections *)




(** ** Stopping and restarting *)



(** The scenario of section 8: the restart takes the first identity out
    of the registry and routes the notebook to the new one; the bridge
    opened on the first kernel has its notification on its way, and is
    stale once it has observed it. *)
Example scenario_run :
  (fun s => (bstate <$> bridges s, pending s, elements (live s),
             routing s !! "nbA"))
    (run scenario init)
  = ([Active], [0%nat], [1%nat], Some 1%nat)
  /\ (fun s => (bridges s, pending s)) (drain (run scenario init))
     = ([ {| connection := 7; kernel := 0; channel := Broadcast;
             bstate := Stale |} ], []).
Proof. split; vm_compute; reflexivity. Qed.

(** Closing the client's connection instead leaves the kernel running. *)
Example close_keeps_kernel :
  (fun s => (bstate <$> bridges s, elements (live s)))
    (run [Resolve "nbA"; Attach 7 0 Broadcast; ClientClose 0] init)
  = ([Detached], [0%nat]).
Proof. vm_compute. reflexivity. Qed.

(** A client that closes before it has observed the notification stays
    detached when the notification arrives. *)
Example close_before_notification :
  (fun s => (bstate <$> bridges s, pending s))
    (run (scenario ++ [ClientClose 0; Notify 0]) init)
  = ([Detached], []).
Proof. vm_compute. reflexivity. Qed.

(** An attachment to the stale identity is refused. *)
Example attach_stale_refused :
  length (bridges (run (scenario ++ [Attach 8 0 Control]) init)) = 1%nat.
Proof. vm_compute. reflexivity. Qed.


End BridgeLifecycle.

(* ================================================================== *)
(** * Further properties of the start-up code *)

(** ** The scrubbing loop *)

Lemma remove_first (a : string) (kept rest : list string) :
  ~ In a kept -> Py.remove a (kept ++ a :: rest) = Some (kept ++ rest).
Proof.
  induction kept as [| d kept IH]; intros Hnot; cbn.
  - by rewrite String.eqb_refl.
  - destruct (String.eqb_spec d a) as [-> | Hne].
    + destruct Hnot. by left.
    + rewrite IH; [done |]. intros Hin. apply Hnot. by right.
Qed.

Lemma scrub_invariant (flags : list string) (argv kept tail : list string) :
  Forall (fun d => is_frontend_flag flags d = false) kept ->
  scrub flags argv (kept ++ argv ++ tail)
  = Some (kept
          ++ List.filter (fun a => negb (is_frontend_flag flags a)) argv
          ++ tail).
Proof.
  revert kept. induction argv as [| a rest IH]; intros kept Hkept; [done |].
  cbn [scrub List.filter app].
  change (Py.startswith "-" a && Py.contains flags (Py.lstrip "-" a))
    with (is_frontend_flag flags a).
  destruct (is_frontend_flag flags a) eqn:Ha; cbn [negb].
  - rewrite remove_first.
    + cbn. by apply IH.
    + intros Hin. rewrite List.Forall_forall in Hkept.
      rewrite (Hkept a Hin) in Ha. discriminate.
  - change (kept ++ a :: rest ++ tail) with (kept ++ [a] ++ rest ++ tail).
    rewrite (app_assoc kept [a]), IH.
    + by rewrite <- app_assoc.
    + apply Forall_app. split; [done |]. by constructor.
Qed.

(** X1: whatever the list of frontend flags, the scrubbing loop of
    [parse_command_line] never raises: run on a copy of [argv] followed by
    further arguments, it removes exactly the arguments of [argv] that are
    frontend flags (every occurrence of them), keeps the others in their
    order, and leaves what follows the copy alone. *)
Theorem scrub_removes_frontend_flags (flags argv tail : list string) :
  scrub flags argv (argv ++ tail)
  = Some (List.filter (fun a => negb (is_frontend_flag flags a)) argv ++ tail).
Proof. by apply (scrub_invariant flags argv [] tail). Qed.

(** ** Trait assignment and configuration *)

Lemma with_ip_with_ip (v w : string) (self : IPythonNotebookApp) :
  with_ip v (with_ip w self) = with_ip v self.
Proof. done. Qed.

(** X2: assigning [*] to [ip] has the same effect as assigning the empty
    string: the two leave the application in the same state. *)
Theorem setattr_ip_star_is_empty (self : IPythonNotebookApp) :
  ip self <> "*" ->
  setattr_ip recursion_limit "*" self = setattr_ip recursion_limit "" self.
Proof.
  intros Hne. unfold recursion_limit.
  change 1000%nat with (S (S 998)). cbn [setattr_ip].
  destruct (String.eqb_spec (ip self) "*") as [? | _]; [done |].
  unfold _ip_changed. cbn.
  destruct (String.eqb_spec (ip self) "") as [Hempty | _].
  - rewrite with_ip_with_ip, <- Hempty. by rewrite with_ip_same.
  - done.
Qed.

Lemma setattr_ip_star_is_empty_witness :
  ip new_app <> "*"
  /\ setattr_ip recursion_limit "*" new_app
     = setattr_ip recursion_limit "" new_app.
Proof.
  split; [discriminate |]. apply setattr_ip_star_is_empty. discriminate.
Defined.

Lemma assign_ip (x : assignment) (self : IPythonNotebookApp) :
  ip self <> "*" ->
  exists self', assign x self = Some self'
    /\ ip self' = match x with
                  | Set_ip v => if String.eqb v "*" then "" else v
                  | _ => ip self
                  end
    /\ ip self' <> "*".
Proof.
  intros Hne. destruct x as [v | v | v | v]; cbn [assign]; try by eexists.
  destruct (setattr_ip_total recursion_limit v self)
    as (self' & -> & _ & _ & _ & _ & _ & _ & Hip);
    [unfold recursion_limit; lia |].
  exists self'. rewrite (Hip Hne). split; [done |]. split; [done |].
  by destruct (String.eqb_spec v "*").
Qed.

(** X3: after a configuration is applied, [ip] holds the value of the last
    assignment to [ip] in it, with [*] turned into the empty string; a
    configuration that does not assign [ip] leaves it as it was. *)
Theorem update_config_last_ip (cfg : list assignment)
    (self self' : IPythonNotebookApp) :
  ip self <> "*" ->
  update_config cfg self = Some self' ->
  ip self' = match last_ip cfg with
             | Some v => if String.eqb v "*" then "" else v
             | None => ip self
             end.
Proof.
  revert self. induction cfg as [| x cfg IH]; intros self Hne; cbn.
  - by intros [= <-].
  - destruct (assign_ip x self Hne) as (s1 & -> & Hip & Hne1). cbn.
    intros Hupd. rewrite (IH s1 Hne1 Hupd).
    destruct (last_ip cfg); [done |]. rewrite Hip. by destruct x.
Qed.

Lemma update_config_last_ip_witness :
  ip new_app <> "*"
  /\ update_config [Set_ip "10.0.0.1"; Set_port 9999; Set_ip "*"] new_app
     = Some (with_ip "" (with_port 9999 new_app))
  /\ ip (with_ip "" (with_port 9999 new_app)) = "".
Proof.
  split; [discriminate |]. split; [reflexivity |].
  apply (update_config_last_ip
           [Set_ip "10.0.0.1"; Set_port 9999; Set_ip "*"] new_app).
  - discriminate.
  - reflexivity.
Defined.

(** ** Start-up as a whole *)






Section StartUpProperties.

Variable dirname : string.
Variable sys_argv : list string.
Variable command_line_config : list string -> option (list assignment).
Variable profile_config : list assignment.
Variable can_listen : Z -> string -> bool.

Local Abbreviation init' :=
  (initialize dirname sys_argv command_line_config profile_config can_listen).
Local Abbreviation routes' :=
  (compiled_routes {[ "path" := os_path_join dirname "static" ]}).




(** X5: after [initialize] the routing kernel manager holds the kernel
    arguments that [parse_command_line] computed, the command line
    followed by the parent application's name, whatever the configuration
    files set; the web application is the compiled URL table, and it is
    this table that the HTTP server calls for a request. *)
Theorem initialize_wires_components (self app' : IPythonNotebookApp)
    (argv : option (list string)) :
  init' self argv = Some app' ->
  kernel_argv app' = default sys_argv argv ++ [parent_appname_arg]
  /\ routing_kernel_manager app'
     = Some {| rkm_kernel_argv := kernel_argv app' |}
  /\ web_app app' = Some routes'
  /\ exists srv, http_server app' = Some srv /\ request_callback srv = routes'.
Proof.
  intros (c & Hserve & _ & _ & Hk & Hr & Hw)%initialize_inv.
  destruct (serve_fields can_listen routes' c _ Hserve)
    as (_ & _ & _ & _ & -> & -> & ->).
  split; [done |]. split; [done |]. split; [done |].
  destruct (serve_listens can_listen routes' c _ Hserve)
    as (_ & srv & Hsrv & Hcb & _).
  by exists srv.
Qed.


End StartUpProperties.

(** [ipython notebook --pylab=inline] with a profile that sets a
    certificate. *)
Lemma initialize_wires_components_witness :
  exists app',
    initialize demo_dirname ["--pylab=inline"] (fun _ => Some [])
      [Set_certfile "mycert.pem"] demo_host new_app None = Some app'
    /\ kernel_argv app' = ["--pylab=inline"; parent_appname_arg]
    /\ routing_kernel_manager app'
       = Some {| rkm_kernel_argv := kernel_argv app' |}
    /\ web_app app'
       = Some (compiled_routes {[ "path" := os_path_join demo_dirname "static" ]})
    /\ exists srv, http_server app' = Some srv
         /\ request_callback srv
            = compiled_routes {[ "path" := os_path_join demo_dirname "static" ]}.
Proof.
  eexists. split; [reflexivity |].
  apply (initialize_wires_components demo_dirname ["--pylab=inline"]
           (fun _ => Some []) [Set_certfile "mycert.pem"] demo_host
           new_app _ None).
  reflexivity.
Defined.

(** A port that is taken: [ipython notebook --port=80] on a host where
    only ports from 1024 on can be bound does not start. *)
Example launch_port_taken :
  launch_new_instance demo_dirname ["--port=80"]
    (fun _ => Some [Set_port 80]) [] (fun p _ => 1024 <=? p)
  = None.
Proof. reflexivity. Qed.

(** ** The aliases *)

(** X8: the aliases of the application map each of [ip], [port],
    [keyfile], [certfile], [colors] and [notebook-dir] to the frontend's
    target, whatever the kernel application maps them to, and every other
    alias is the kernel application's. *)
Theorem aliases_override_and_inherit (ipkernel_aliases : gmap string string) :
  (forall k v, In (k, v) notebook_aliases ->
     aliases ipkernel_aliases !! k = Some v)
  /\ (forall k, ~ In k (notebook_aliases.*1) ->
        aliases ipkernel_aliases !! k = ipkernel_aliases !! k)
  /\ dom (aliases ipkernel_aliases)
     = dom ipkernel_aliases ∪ list_to_set (notebook_aliases.*1).
Proof.
  unfold aliases, dict_update, notebook_aliases. cbn [foldl fst snd fmap list_fmap].
  split; [| split].
  - intros k v Hin. cbn in Hin.
    repeat (destruct Hin as [[= <- <-] | Hin];
            [repeat (rewrite lookup_insert_ne by done);
             by rewrite lookup_insert_eq |]).
    done.
  - intros k Hnot. cbn in Hnot.
    rewrite !lookup_insert_ne; [done | ..]; intros <-; apply Hnot; tauto.
  - rewrite !dom_insert_L. apply set_eq. intros k. cbn.
    rewrite !elem_of_union, !elem_of_singleton, elem_of_empty. tauto.
Qed.

(* ================================================================== *)
(** * Further properties of the URL table *)

(** ** The patterns of the static files *)

(** [.+] takes off a non-empty run of characters other than the line
    feed. *)
Lemma in_plus_iter_Dot (fuel : nat) (s t : list ascii) :
  (length s < fuel)%nat ->
  In t (plus_iter (run Dot) fuel s)
  <-> exists y, y <> [] /\ ~ In LF y /\ s = y ++ t.
Proof.
  revert s. induction fuel as [| fuel IH]; intros s Hlen; [lia |].
  cbn [plus_iter run]. destruct s as [| c s'].
  { cbn. split; [done |]. intros (y & Hne & _ & Hs).
    symmetry in Hs. apply app_eq_nil in Hs as [-> _]. done. }
  cbn [length] in Hlen.
  destruct (Ascii.eqb_spec c LF) as [-> | Hc].
  - cbn. split; [done |]. intros (y & Hne & Hy & Hs).
    destruct y as [| c' y]; [done |]. injection Hs as <- ->.
    apply Hy. by left.
  - cbn [flat_map]. rewrite app_nil_r, in_app_iff.
    assert (Hlt : (length s' <? length (c :: s'))%nat = true).
    { apply Nat.ltb_lt. cbn. lia. }
    rewrite Hlt, IH by lia. split.
    + intros [(y & Hne & Hy & ->) | [<- | []]].
      * exists (c :: y). split; [done |]. split; [| done].
        intros [Heq | Hin]; [by apply Hc | by apply Hy].
      * exists [c]. split; [done |]. split; [| done].
        intros [Heq | []]. by apply Hc.
    + intros (y & Hne & Hy & Hs). destruct y as [| c' y]; [done |].
      injection Hs as <- ->. destruct y as [| c'' y].
      * right. by left.
      * left. exists (c'' :: y). split; [done |]. split; [| done].
        intros Hin. apply Hy. by right.
Qed.

(** [.*] takes off any run of characters other than the line feed. *)
Lemma in_run_Star_Dot (s t : list ascii) :
  In t (run (Star Dot) s) <-> exists y, ~ In LF y /\ s = y ++ t.
Proof.
  cbn [run]. rewrite in_app_iff, in_plus_iter_Dot by lia. split.
  - intros [(y & _ & Hy & ->) | [<- | []]]; [by exists y |].
    exists []. split; [by intros [] | done].
  - intros (y & Hy & ->). destruct y as [| c y].
    + right. by left.
    + left. by exists (c :: y).
Qed.

Lemma match_static_route (path : list ascii) :
  re_match (Cat (Str "/static/") (Cat (Group None (Star Dot)) Eol)) path = true
  <-> exists y t, path = path_of "/static/" ++ y ++ t
        /\ ~ In LF y /\ at_end t = true.
Proof.
  rewrite re_match_true. split.
  - intros (t & (u & ->%in_run_Str & (v & Hv & [-> Hend]%in_run_Eol)%in_run_Cat)%in_run_Cat).
    apply in_run_Group, in_run_Star_Dot in Hv as (y & Hy & ->). by exists y, v.
  - intros (y & t & -> & Hy & Hend). exists t.
    apply in_run_Cat. eexists. split; [by apply in_run_Str |].
    apply in_run_Cat. exists t. split; [| by apply in_run_Eol].
    apply in_run_Group, in_run_Star_Dot. by exists y.
Qed.

Lemma match_file_route (name : string) (path : list ascii) :
  re_match (Cat (Str "/") (Cat (Group None (Str name)) Eol)) path = true
  <-> exists t, path = "/"%char :: list_ascii_of_string name ++ t
        /\ at_end t = true.
Proof.
  rewrite re_match_true. split.
  - intros (t & (u & ->%in_run_Str & (v & Hv & [-> Hend]%in_run_Eol)%in_run_Cat)%in_run_Cat).
    apply in_run_Group, in_run_Str in Hv as ->. by exists v.
  - intros (t & -> & Hend). exists t.
    apply in_run_Cat. eexists. split; [by apply in_run_Str |].
    apply in_run_Cat. exists t. split; [| by apply in_run_Eol].
    by apply in_run_Group, in_run_Str.
Qed.

(** ** One route for a path *)

Lemma filter_cases {A : Type} (f : A -> bool) (l : list A) :
  List.filter f l = [] \/ exists i x, l !! i = Some x /\ f x = true.
Proof.
  induction l as [| x l IH]; [by left |]. cbn.
  destruct (f x) eqn:Hx.
  - right. by exists 0%nat, x.
  - destruct IH as [-> | (i & y & Hi & Hy)]; [by left |].
    right. by exists (S i), y.
Qed.

Lemma filter_none {A : Type} (f : A -> bool) (l : list A) :
  (forall j y, l !! j = Some y -> f y = false) -> List.filter f l = [].
Proof.
  induction l as [| x l IH]; intros H; [done |]. cbn.
  rewrite (H 0%nat x eq_refl). apply IH. intros j y Hj. by apply (H (S j)).
Qed.

(** When every entry but the one at [i] is refused, at most one entry is
    kept. *)
Lemma filter_only_at {A : Type} (f : A -> bool) (l : list A) (i : nat) :
  (forall j y, l !! j = Some y -> j <> i -> f y = false) ->
  (length (List.filter f l) <= 1)%nat.
Proof.
  revert i. induction l as [| x l IH]; intros i H; [cbn; lia |].
  destruct i as [| i].
  - cbn. rewrite (filter_none f l).
    + destruct (f x); cbn; lia.
    + intros j y Hj. by apply (H (S j)).
  - cbn. rewrite (H 0%nat x eq_refl) by done.
    apply (IH i). intros j y Hj Hne. apply (H (S j)); [done | lia].
Qed.

Lemma In_existsb (c : ascii) (l l' : list ascii) :
  existsb (Ascii.eqb c) l = true -> In c (l ++ l').
Proof.
  intros (c' & Hin & <-%Ascii.eqb_eq)%existsb_exists.
  apply in_app_iff. by left.
Qed.

Lemma not_In_existsb (c : ascii) (l : list ascii) :
  existsb (Ascii.eqb c) l = false -> ~ In c l.
Proof.
  intros Hf Hin. apply not_true_iff_false in Hf. apply Hf.
  apply existsb_exists. exists c. split; [done | apply Ascii.eqb_refl].
Qed.

(** A first segment without hyphen is not an identifier. *)
Lemma id_root_not_below (group : string) (seg X : list ascii) :
  ~ In "-"%char seg ->
  re_match (id_route "/" group Eol) ("/"%char :: seg ++ "/"%char :: X) = false.
Proof.
  intros Hseg. apply not_true_iff_false.
  intros (W & rest & HW & Heq & _)%match_id_route.
  injection Heq as Heq.
  destruct (prefix_before "/"%char W seg rest X) as [d Hd];
    [by apply five_words_no_slash | exact (eq_sym Heq) |].
  apply Hseg. rewrite Hd. apply in_app_iff. left. by apply five_words_hyphen.
Qed.

(** A literal route does not take a path that goes on with a slash. *)
Lemma plain_route_not_below (text : string) (X : list ascii) :
  re_match (plain_route text) (list_ascii_of_string text ++ "/"%char :: X)
  = false.
Proof.
  apply not_true_iff_false. intros (t & Heq & Hend)%match_plain_route.
  apply app_inv_head in Heq. subst t. by destruct X.
Qed.

(** An identifier and what [$] leaves after it hold no slash. *)
Lemma id_then_end_no_slash (W t : list ascii) :
  five_words W -> at_end t = true -> ~ In "/"%char (W ++ t).
Proof.
  intros HW Ht [Hin | Hin]%in_app_iff.
  - by apply (five_words_no_slash W).
  - apply at_end_cases in Ht as [-> | ->]; cbn in Hin; intuition discriminate.
Qed.

(** A route that goes on after the identifier with a slash does not take
    a path that ends with the identifier. *)
Lemma deeper_route_not_id (prefix group : string) (tail : regex)
    (W t : list ascii) :
  five_words W -> at_end t = true ->
  (forall rest, re_match tail rest = true -> exists r, rest = "/"%char :: r) ->
  re_match (id_route prefix group tail)
    (list_ascii_of_string prefix ++ W ++ t) = false.
Proof.
  intros HW Ht Htail. apply not_true_iff_false.
  intros (W' & rest & HW' & Heq & Hrest)%match_id_route.
  apply app_inv_head in Heq. destruct (Htail rest Hrest) as [r ->].
  apply (id_then_end_no_slash W t HW Ht). rewrite Heq.
  apply in_app_iff. right. by left.
Qed.

(** The route of the notebook identifier alone takes a path that no route
    whose paths have a second slash, or no hyphen, takes. *)
Lemma id_root_only (W t : list ascii) (r : regex) :
  five_words W -> at_end t = true ->
  (forall p, re_match r p = true ->
     exists X, p = "/"%char :: X /\ (In "/"%char X \/ ~ In "-"%char X)) ->
  re_match r ("/"%char :: W ++ t) = false.
Proof.
  intros HW Ht Hr. apply not_true_iff_false.
  intros (X & [= <-] & [Hs | Hh])%Hr.
  - by apply (id_then_end_no_slash W t).
  - apply Hh. apply in_app_iff. left. by apply five_words_hyphen.
Qed.

(** The paths of every route but the one of the notebook identifier alone
    have a second slash or no hyphen. *)
Ltac second_slash_or_no_hyphen Hp :=
  first
    [ apply match_static_route in Hp as (? & ? & -> & _ & _);
      eexists; split; [reflexivity |]; left;
      by apply (In_existsb "/" (path_of "static/"))
    | apply match_file_route in Hp as (? & -> & [-> | ->]%at_end_cases);
      eexists; (split; [reflexivity |]); right;
      by apply not_In_existsb
    | apply match_plain_route in Hp as (? & -> & [-> | ->]%at_end_cases);
      eexists; (split; [reflexivity |]); right;
      by apply not_In_existsb
    | apply match_id_route in Hp as (? & ? & _ & -> & _);
      eexists; (split; [reflexivity |]); left;
      first [ by apply (In_existsb "/" (path_of "kernels/"))
            | by apply (In_existsb "/" (path_of "notebooks/")) ] ].

Ltac literal_path H :=
  first [ apply match_file_route in H as (? & -> & [-> | ->]%at_end_cases)
        | apply match_plain_route in H as (? & -> & [-> | ->]%at_end_cases) ];
  vm_compute; lia.

Ltac each_index n i tac :=
  lazymatch n with
  | O => idtac
  | S ?n' => destruct i as [| i]; [tac | each_index n' i tac]
  end.

(** The other routes of the table, one goal for each. *)
Ltac each_route j Hj Hne :=
  unfold compiled_routes in Hj;
  each_index 14%nat j
    ltac:(first [ by destruct Hne | injection Hj as <-; cbn [spec_regex] ]);
  [.. | done].

(** The routes that do not take [/kernels/<id>/<Y>]; for a per-kernel
    route with a tail, what is left is whether the tail takes [/<Y>]. *)
Ltac below_kernel_id id Y Hid :=
  lazymatch goal with
  | |- re_match (id_route "/" _ Eol) _ = false =>
      apply notebook_route_not_kernels
  | |- re_match (plain_route "/kernels") _ = false =>
      apply kernels_route_not_below
  | |- re_match (id_route "/kernels/" _ Eol) _ = false =>
      by apply kernel_route_not_deeper
  | |- re_match (id_route "/kernels/" _ action_tail) _ = false =>
      rewrite (kernel_route_deeper action_tail id Y Hid action_tail_slash)
  | |- re_match (id_route "/kernels/" _ (plain_route (String "/" ?text))) _
       = false =>
      rewrite (kernel_route_deeper _ id Y Hid (plain_tail_slash text))
  | |- _ => reflexivity
  end.

Lemma url_table_one_match (static_kw : gmap string string)
    (path : list ascii) :
  (length (List.filter (fun spec => re_match (spec_regex spec) path)
             (compiled_routes static_kw)) <= 1)%nat.
Proof.
  destruct (filter_cases (fun spec => re_match (spec_regex spec) path)
              (compiled_routes static_kw)) as [-> | (i & x & Hi & Hx)];
    [cbn; lia |].
  unfold compiled_routes in Hi.
  each_index 14%nat i ltac:(injection Hi as <-; cbn [spec_regex] in Hx);
    [.. | done].
  - (* /static/... *)
    apply match_static_route in Hx as (y & t & -> & Hy & Ht).
    apply (filter_only_at _ _ 0). intros j s Hj Hne.
    each_route j Hj Hne;
      lazymatch goal with
      | |- re_match (id_route "/" _ Eol) _ = false =>
          apply (id_root_not_below _ (path_of "static") (y ++ t));
          by apply not_In_existsb
      | |- _ => reflexivity
      end.
  - literal_path Hx.
  - literal_path Hx.
  - literal_path Hx.
  - literal_path Hx.
  - (* /<notebook_id> *)
    apply match_id_route in Hx as (W & t & HW & -> & Ht).
    rewrite match_Eol in Ht.
    apply (filter_only_at _ _ 5). intros j s Hj Hne.
    each_route j Hj Hne;
      apply (id_root_only W t _ HW Ht); intros p Hp;
      second_slash_or_no_hyphen Hp.
  - literal_path Hx.
  - (* /kernels/<kernel_id> *)
    apply match_id_route in Hx as (W & t & HW & -> & Ht).
    rewrite match_Eol in Ht.
    apply (filter_only_at _ _ 7). intros j s Hj Hne.
    each_route j Hj Hne;
      lazymatch goal with
      | |- re_match (id_route "/" _ Eol) _ = false =>
          apply notebook_route_not_kernels
      | |- re_match (plain_route "/kernels") _ = false =>
          apply kernels_route_not_below
      | |- re_match (id_route "/kernels/" _ action_tail) _ = false =>
          apply (deeper_route_not_id _ _ _ W t HW Ht), action_tail_slash
      | |- re_match (id_route "/kernels/" _ (plain_route _)) _ = false =>
          apply (deeper_route_not_id _ _ _ W t HW Ht), plain_tail_slash
      | |- _ => reflexivity
      end.
  - (* /kernels/<kernel_id>/<action> *)
    apply (kernel_sub_shape _ _ action_tail_slash) in Hx
      as (id & Y & Hid & -> & HY).
    apply (filter_only_at _ _ 8). intros j s Hj Hne.
    apply action_tail_cases in HY.
    each_route j Hj Hne; below_kernel_id id Y Hid;
      by destruct HY as [-> | [-> | [-> | ->]]].
  - (* /kernels/<kernel_id>/iopub *)
    apply (kernel_sub_shape _ _ (plain_tail_slash "iopub")) in Hx
      as (id & Y & Hid & -> & HY).
    apply (filter_only_at _ _ 9). intros j s Hj Hne.
    apply (plain_tail_cases "iopub") in HY.
    each_route j Hj Hne; below_kernel_id id Y Hid;
      by destruct HY as [-> | ->].
  - (* /kernels/<kernel_id>/shell *)
    apply (kernel_sub_shape _ _ (plain_tail_slash "shell")) in Hx
      as (id & Y & Hid & -> & HY).
    apply (filter_only_at _ _ 10). intros j s Hj Hne.
    apply (plain_tail_cases "shell") in HY.
    each_route j Hj Hne; below_kernel_id id Y Hid;
      by destruct HY as [-> | ->].
  - literal_path Hx.
  - (* /notebooks/<notebook_id> *)
    apply match_id_route in Hx as (W & t & HW & -> & Ht).
    rewrite match_Eol in Ht.
    apply (filter_only_at _ _ 12). intros j s Hj Hne.
    each_route j Hj Hne;
      lazymatch goal with
      | |- re_match (id_route "/" _ Eol) _ = false =>
          apply (id_root_not_below _ (path_of "notebooks") (W ++ t));
          by apply not_In_existsb
      | |- re_match (plain_route "/notebooks") _ = false =>
          apply (plain_route_not_below "/notebooks" (W ++ t))
      | |- _ => reflexivity
      end.
  - literal_path Hx.
Qed.

(** ** The order of the table *)

(** The handler is that of the first entry that is kept. *)
Lemma dispatch_head_filter (specs : list URLSpec) (path : list ascii) :
  dispatch specs path
  = (fun spec => (handler_class_of spec, kwargs spec))
      <$> head (List.filter (fun spec => re_match (spec_regex spec) path) specs).
Proof.
  induction specs as [| spec specs IH]; [done |]. cbn.
  by destruct (re_match (spec_regex spec) path).
Qed.

Lemma filter_Permutation_bool {A : Type} (f : A -> bool) (l l' : list A) :
  l ≡ₚ l' -> List.filter f l ≡ₚ List.filter f l'.
Proof.
  induction 1 as [| x l l' _ IH | x y l | l l' l'' _ IH1 _ IH2]; cbn.
  - done.
  - destruct (f x); [by constructor | done].
  - destruct (f x), (f y); try done. apply perm_swap.
  - by etransitivity.
Qed.

(** When at most one entry takes the path, the order of the table does
    not matter. *)
Lemma dispatch_Permutation (specs specs' : list URLSpec) (path : list ascii) :
  (length (List.filter (fun spec => re_match (spec_regex spec) path) specs)
   <= 1)%nat ->
  specs ≡ₚ specs' -> dispatch specs' path = dispatch specs path.
Proof.
  intros Hlen HP. rewrite !dispatch_head_filter.
  apply (filter_Permutation_bool
           (fun spec => re_match (spec_regex spec) path)) in HP.
  destruct (List.filter _ specs) as [| x [| y l]]; cbn in Hlen; [| | lia].
  - apply Permutation_nil in HP. by rewrite HP.
  - apply Permutation_length_1_inv in HP. by rewrite HP.
Qed.

(** When at most one entry takes the path, any entry that takes it is the
    one that handles it. *)
Lemma dispatch_any_match (specs : list URLSpec) (path : list ascii)
    (spec : URLSpec) :
  (length (List.filter (fun spec => re_match (spec_regex spec) path) specs)
   <= 1)%nat ->
  In spec specs -> re_match (spec_regex spec) path = true ->
  dispatch specs path = Some (handler_class_of spec, kwargs spec).
Proof.
  intros Hlen Hin Hm. rewrite dispatch_head_filter.
  assert (Hf : In spec (List.filter
                          (fun spec => re_match (spec_regex spec) path) specs))
    by by apply filter_In.
  destruct (List.filter _ specs) as [| x [| y l]]; cbn in Hlen; [done | | lia].
  by destruct Hf as [-> | []].
Qed.

(** X9: the URL table compiles to fourteen routes, the three static file
    routes of the framework and the eleven of the application, and no
    request path is taken by more than one of them. *)
Theorem url_table_unambiguous (dirname : string) :
  exists app, NotebookWebApplication dirname = Some app
    /\ length app = 14%nat
    /\ forall path,
         (length (List.filter
                    (fun spec => re_match (spec_regex spec) path) app)
          <= 1)%nat.
Proof.
  eexists. split; [apply NotebookWebApplication_compiled |].
  split; [done |]. apply url_table_one_match.
Qed.

(** X10: the order of the URL table does not matter.  A request is
    handled by a route exactly when the route takes its path, wherever the
    route stands in the table, and the table in any other order answers
    every request as the table does. *)
Theorem dispatch_order_irrelevant (dirname : string) :
  exists app, NotebookWebApplication dirname = Some app
    /\ (forall path h kw,
          dispatch app path = Some (h, kw)
          <-> exists spec, In spec app
                /\ re_match (spec_regex spec) path = true
                /\ handler_class_of spec = h /\ kwargs spec = kw)
    /\ (forall app' path, app ≡ₚ app' ->
          dispatch app' path = dispatch app path).
Proof.
  eexists. split; [apply NotebookWebApplication_compiled |]. split.
  - intros path h kw. split; [apply dispatch_In |].
    intros (spec & Hin & Hm & <- & <-).
    by apply dispatch_any_match; [apply url_table_one_match | |].
  - intros app' path. apply dispatch_Permutation, url_table_one_match.
Qed.

(** ** Static files *)

Lemma dispatch_below_static (static_kw : gmap string string)
    (X : list ascii) :
  dispatch (compiled_routes static_kw) (path_of "/static/" ++ X)
  = if re_match (Cat (Str "/static/") (Cat (Group None (Star Dot)) Eol))
         (path_of "/static/" ++ X)
    then Some (StaticFileHandler, static_kw) else None.
Proof.
  unfold compiled_routes. cbn [dispatch spec_regex handler_class_of kwargs].
  destruct (re_match _ (path_of "/static/" ++ X)); [done |].
  assert (H5 : re_match (id_route "/" "notebook_id" Eol)
                  (path_of "/static/" ++ X) = false).
  { apply (id_root_not_below _ (path_of "static") X). by apply not_In_existsb. }
  rewrite H5. reflexivity.
Qed.

(** A line feed that is not the last character stops the static file
    pattern. *)
Lemma static_route_inner_LF (x y : list ascii) (c : ascii) :
  re_match (Cat (Str "/static/") (Cat (Group None (Star Dot)) Eol))
    (path_of "/static/" ++ x ++ LF :: c :: y) = false.
Proof.
  apply not_true_iff_false.
  intros (y' & t & Heq & Hy' & Ht)%match_static_route.
  apply app_inv_head in Heq.
  destruct (prefix_before LF y' x t (c :: y) Hy' (eq_sym Heq)) as [d ->].
  rewrite <- app_assoc in Heq. apply app_inv_head in Heq.
  apply (f_equal length) in Heq. rewrite length_app in Heq. cbn in Heq.
  apply at_end_cases in Ht as [-> | ->]; cbn in Heq; lia.
Qed.

(** X11: a request goes to the static file handler exactly when its path
    is [/static/] followed by any characters other than the line feed, or
    [/favicon.ico], or [/robots.txt], in each case possibly followed by one
    last line feed; the handler is then given the directory [static]
    beside the module and no other.  So every path below [/static/]
    without a line feed is served, and one with a line feed before its
    last character is not served at all. *)
Theorem static_files_route (dirname : string) :
  exists app, NotebookWebApplication dirname = Some app
    /\ (forall x, ~ In LF x ->
          dispatch app (path_of "/static/" ++ x)
          = Some (StaticFileHandler,
                  {[ "path" := os_path_join dirname "static" ]}))
    /\ (forall x c y,
          dispatch app (path_of "/static/" ++ x ++ LF :: c :: y) = None)
    /\ (forall path kw,
          dispatch app path = Some (StaticFileHandler, kw)
          <-> kw = {[ "path" := os_path_join dirname "static" ]}
              /\ exists t, (t = [] \/ t = [LF])
                   /\ ((exists x, path = path_of "/static/" ++ x ++ t
                                  /\ ~ In LF x)
                       \/ path = path_of "/favicon.ico" ++ t
                       \/ path = path_of "/robots.txt" ++ t)).
Proof.
  eexists. split; [apply NotebookWebApplication_compiled |].
  assert (Hstatic : forall x t, ~ In LF x -> t = [] \/ t = [LF] ->
            dispatch
              (compiled_routes {[ "path" := os_path_join dirname "static" ]})
              (path_of "/static/" ++ x ++ t)
            = Some (StaticFileHandler,
                    {[ "path" := os_path_join dirname "static" ]})).
  { intros x t Hx Ht. rewrite dispatch_below_static.
    assert (Hm : re_match
                   (Cat (Str "/static/") (Cat (Group None (Star Dot)) Eol))
                   (path_of "/static/" ++ x ++ t) = true).
    { apply match_static_route. exists x, t.
      split; [done |]. split; [done | by apply at_end_cases]. }
    by rewrite Hm. }
  split; [| split].
  - intros x Hx. rewrite <- (app_nil_r x) at 1. apply Hstatic; [done | by left].
  - intros x c y. by rewrite dispatch_below_static, static_route_inner_LF.
  - intros path kw. split.
    + intros (spec & Hin & Hm & Hh & Hkw)%dispatch_In.
      unfold compiled_routes in Hin. cbn [In] in Hin.
      repeat (destruct Hin as [<- | Hin]; [try discriminate Hh |]);
        [| | | done]; cbn [kwargs spec_regex] in *; (split; [done |]).
      * apply match_static_route in Hm as (y & t & -> & Hy & Ht%at_end_cases).
        exists t. split; [done |]. left. by exists y.
      * apply match_file_route in Hm as (t & -> & Ht%at_end_cases).
        exists t. split; [done |]. right. by left.
      * apply match_file_route in Hm as (t & -> & Ht%at_end_cases).
        exists t. split; [done |]. right. by right.
    + intros (-> & t & Ht & [(x & -> & Hx) | [-> | ->]]).
      * by apply Hstatic.
      * by destruct Ht as [-> | ->].
      * by destruct Ht as [-> | ->].
Qed.

(** ** Notebooks and the literal paths *)

Lemma matches_notebook_id_pattern (s : list ascii) :
  matches_pattern _notebook_id_regex s = true <-> five_words s.
Proof.
  change (matches_pattern _notebook_id_regex s)
    with (re_fullmatch (Group (Some "notebook_id") id_pattern) s).
  rewrite re_fullmatch_true, in_run_Group, in_run_id_pattern. split.
  - intros (W & HW & ->). by rewrite app_nil_r.
  - intros HW. exists s. by rewrite app_nil_r.
Qed.

(** X15: the pattern of the notebook identifiers and the pattern of the
    kernel identifiers accept the same strings; only the name of the group
    differs. *)
Theorem identifier_patterns_agree (s : list ascii) :
  matches_pattern _notebook_id_regex s = matches_pattern _kernel_id_regex s.
Proof.
  apply bool_eq_iff.
  by rewrite matches_notebook_id_pattern, matches_id_pattern.
Qed.

(** The paths of a route that ends with the notebook identifier. *)
Lemma match_notebook_id_route (prefix : string) (path : list ascii) :
  re_match (id_route prefix "notebook_id" Eol) path = true
  <-> exists id t, path = list_ascii_of_string prefix ++ id ++ t
        /\ matches_pattern _notebook_id_regex id = true
        /\ (t = [] \/ t = [LF]).
Proof.
  rewrite match_id_route. split.
  - intros (W & t & HW & -> & Ht). rewrite match_Eol in Ht.
    exists W, t. split; [done |].
    split; [by apply matches_notebook_id_pattern | by apply at_end_cases].
  - intros (id & t & -> & Hid & Ht). exists id, t.
    split; [by apply matches_notebook_id_pattern |]. split; [done |].
    rewrite match_Eol. by apply at_end_cases.
Qed.

(** The entries of the compiled table, one goal for each. *)
Ltac each_entry Hin :=
  unfold compiled_routes in Hin; cbn [In] in Hin;
  repeat (destruct Hin as [<- | Hin]; [| try done]).

(** X12: a request goes to the handler of a named notebook exactly when
    its path is a slash and a notebook identifier, and to the handler of
    a stored notebook exactly when its path is [/notebooks/] and a
    notebook identifier, in both cases possibly followed by one line feed.
    An identifier is what the pattern [_notebook_id_regex] matches as a
    whole. *)
Theorem notebook_routes (dirname : string) :
  exists app, NotebookWebApplication dirname = Some app
    /\ forall path,
         (dispatch app path = Some (NamedNotebookHandler, ∅)
          <-> exists id t, path = path_of "/" ++ id ++ t
                /\ matches_pattern _notebook_id_regex id = true
                /\ (t = [] \/ t = [LF]))
         /\ (dispatch app path = Some (NotebookHandler, ∅)
             <-> exists id t, path = path_of "/notebooks/" ++ id ++ t
                   /\ matches_pattern _notebook_id_regex id = true
                   /\ (t = [] \/ t = [LF])).
Proof.
  eexists. split; [apply NotebookWebApplication_compiled |].
  intros path. split.
  - rewrite <- (match_notebook_id_route "/"). split.
    + intros (spec & Hin & Hm & Hh & _)%dispatch_In.
      each_entry Hin; try discriminate Hh. exact Hm.
    + intros Hm.
      apply (dispatch_any_match _ _
               (Build_URLSpec (id_route "/" "notebook_id" Eol)
                  NamedNotebookHandler ∅));
        [apply url_table_one_match | | done].
      unfold compiled_routes. cbn [In]. tauto.
  - rewrite <- (match_notebook_id_route "/notebooks/"). split.
    + intros (spec & Hin & Hm & Hh & _)%dispatch_In.
      each_entry Hin; try discriminate Hh. exact Hm.
    + intros Hm.
      apply (dispatch_any_match _ _
               (Build_URLSpec (id_route "/notebooks/" "notebook_id" Eol)
                  NotebookHandler ∅));
        [apply url_table_one_match | | done].
      unfold compiled_routes. cbn [In]. tauto.
Qed.

(** X13: an entry of the URL table whose pattern has no group is for one
    path: a request goes to its handler exactly when the path is the
    pattern, or the pattern followed by one line feed. *)
Theorem literal_routes_exact (dirname : string) :
  exists app, NotebookWebApplication dirname = Some app
    /\ forall pattern h kw,
         In (pattern, h, kw) handlers ->
         existsb (Ascii.eqb "(") (list_ascii_of_string pattern) = false ->
         forall path,
           dispatch app path = Some (h, kw)
           <-> path = path_of pattern \/ path = path_of pattern ++ [LF].
Proof.
  eexists. split; [apply NotebookWebApplication_compiled |].
  intros pattern h kw Hin Hlit.
  unfold handlers in Hin. cbn [In] in Hin.
  repeat (destruct Hin as [[= <- <- <-] | Hin]; [try discriminate Hlit |]);
    [.. | done]; intros path; (split; [| by intros [-> | ->]]);
    intros (spec & Hin & Hm & Hh & _)%dispatch_In;
    each_entry Hin; try discriminate Hh;
    apply match_plain_route in Hm as (t & -> & [-> | ->]%at_end_cases);
    rewrite ?app_nil_r; by intuition.
Qed.

(** ** What is never routed *)

Lemma no_LF_app (a b : list ascii) :
  ~ In LF a -> ~ In LF b -> ~ In LF (a ++ b).
Proof. intros Ha Hb [? | ?]%in_app_iff; tauto. Qed.

Ltac no_LF :=
  lazymatch goal with
  | |- ~ In LF (_ ++ _) => apply no_LF_app; no_LF
  | |- _ =>
      first [ assumption | by apply five_words_no_LF | by apply not_In_existsb ]
  end.

(** X14: a request that is handled has a path that starts with a slash
    and holds no line feed, except possibly as its last character; any
    other path gets the 404 answer. *)
Theorem routed_path_shape (dirname : string) :
  exists app, NotebookWebApplication dirname = Some app
    /\ (forall path hk, dispatch app path = Some hk ->
          exists y t, path = "/"%char :: y ++ t /\ ~ In LF y
            /\ (t = [] \/ t = [LF]))
    /\ (forall c rest, c <> "/"%char -> dispatch app (c :: rest) = None)
    /\ dispatch app [] = None
    /\ (forall x c y, dispatch app (x ++ LF :: c :: y) = None).
Proof.
  eexists. split; [apply NotebookWebApplication_compiled |].
  match goal with |- ?P /\ _ => assert (Hshape : P) end.
  { intros path [h kw] (spec & Hin & Hm & _)%dispatch_In.
    each_entry Hin; cbn [spec_regex] in Hm.
    - apply match_static_route in Hm as (y & t & -> & Hy & Ht%at_end_cases).
      exists (path_of "static/" ++ y), t.
      split; [by rewrite <- app_assoc |]. split; [no_LF | done].
    - apply match_file_route in Hm as (t & -> & Ht%at_end_cases).
      eexists _, t. split; [reflexivity |]. split; [no_LF | done].
    - apply match_file_route in Hm as (t & -> & Ht%at_end_cases).
      eexists _, t. split; [reflexivity |]. split; [no_LF | done].
    - apply match_plain_route in Hm as (t & -> & Ht%at_end_cases).
      exists [], t. split; [done |]. split; [by intros [] | done].
    - apply match_plain_route in Hm as (t & -> & Ht%at_end_cases).
      exists (path_of "new"), t. split; [done |]. split; [no_LF | done].
    - apply match_id_route in Hm as (W & t & HW & -> & Ht).
      rewrite match_Eol in Ht. apply at_end_cases in Ht.
      exists W, t. split; [done |]. split; [no_LF | done].
    - apply match_plain_route in Hm as (t & -> & Ht%at_end_cases).
      exists (path_of "kernels"), t. split; [done |]. split; [no_LF | done].
    - apply match_id_route in Hm as (W & t & HW & -> & Ht).
      rewrite match_Eol in Ht. apply at_end_cases in Ht.
      exists (path_of "kernels/" ++ W), t.
      split; [by rewrite <- app_assoc |]. split; [no_LF | done].
    - apply match_id_route in Hm as (W & rest & HW & -> & Hrest).
      apply match_action_tail in Hrest as (a & t & Ha & -> & Ht%at_end_cases).
      exists (path_of "kernels/" ++ W ++ "/"%char :: list_ascii_of_string a), t.
      split; [by rewrite <- !app_assoc |]. split; [| done].
      destruct Ha as [-> | ->]; no_LF.
    - apply match_id_route in Hm as (W & rest & HW & -> & Hrest).
      apply match_plain_route in Hrest as (t & -> & Ht%at_end_cases).
      exists (path_of "kernels/" ++ W ++ path_of "/iopub"), t.
      split; [by rewrite <- !app_assoc |]. split; [no_LF | done].
    - apply match_id_route in Hm as (W & rest & HW & -> & Hrest).
      apply match_plain_route in Hrest as (t & -> & Ht%at_end_cases).
      exists (path_of "kernels/" ++ W ++ path_of "/shell"), t.
      split; [by rewrite <- !app_assoc |]. split; [no_LF | done].
    - apply match_plain_route in Hm as (t & -> & Ht%at_end_cases).
      exists (path_of "notebooks"), t. split; [done |]. split; [no_LF | done].
    - apply match_id_route in Hm as (W & t & HW & -> & Ht).
      rewrite match_Eol in Ht. apply at_end_cases in Ht.
      exists (path_of "notebooks/" ++ W), t.
      split; [by rewrite <- app_assoc |]. split; [no_LF | done].
    - apply match_plain_route in Hm as (t & -> & Ht%at_end_cases).
      exists (path_of "rstservice/render"), t.
      split; [done |]. split; [no_LF | done]. }
  split; [exact Hshape |]. split; [| split].
  - intros c rest Hc.
    destruct (dispatch _ (c :: rest)) as [hk |] eqn:E; [| done].
    apply Hshape in E as (y & t & [= -> _] & _). done.
  - reflexivity.
  - intros x c y.
    destruct (dispatch _ (x ++ LF :: c :: y)) as [hk |] eqn:E; [| done].
    apply Hshape in E as (y' & t & Heq & Hy' & Ht). exfalso.
    change ("/"%char :: y' ++ t) with (("/"%char :: y') ++ t) in Heq.
    assert (Hy'' : ~ In LF ("/"%char :: y')).
    { intros [? | ?]; [discriminate | done]. }
    destruct (prefix_before LF _ x t (c :: y) Hy'' (eq_sym Heq)) as [d ->].
    rewrite <- app_assoc in Heq. apply app_inv_head in Heq.
    apply (f_equal length) in Heq. rewrite length_app in Heq. cbn in Heq.
    destruct Ht as [-> | ->]; cbn in Heq; lia.
Qed.
